(** * HFT options trading simulator: a shallow embedding of [main.cpp]

    The simulator drives five option strategies (straddle, strangle, bull
    spread, bear spread, butterfly spread) off one simulated price path.

    Modelling conventions.
    - A C++ [double] is a real number of [R]; [max], [exp], [log] and [sqrt]
      of <cmath>/<algorithm> are [Rmax], [exp], [ln] and [sqrt].  Rounding,
      overflow to infinity, underflow to zero and NaN are outside this model.
      The properties stated over it are those the program's operations keep
      under rounding: which branch is taken, which field is written, a sign,
      an order, an equality between two evaluations of the same expression.
      In particular the strikes [E * (1 - delta)] and [E * (1 + delta)] are
      used as the program computes them, never as symmetric around [E].
      Division by a window of 0 and the logarithm of a non-positive ratio
      give a value of [R] here and an infinity or a NaN in the program.
    - Where a claim is about rounding itself (the price can underflow to 0),
      the price step is modelled a second time over IEEE binary64 numbers
      ([spec_float] with precision 53 and maximal exponent 1024), see
      [nextPrice_double].
    - A C++ [int] is an integer of [Z] in [tick], [computeMA] and
      [computeVolatility]; overflow of [int] arithmetic is undefined in the
      source and is made explicit, together with reads outside the vector,
      by the checked versions [computeMA_checked] and
      [computeVolatility_checked].
    - [prices[i]] is [nth (Z.to_nat i) prices 0].  Reading outside the vector
      is undefined in the source; theorems about the indicator functions carry
      the index bounds as hypotheses.
    - The fixed-size arrays [cumulativePnL[6]] and [activeTrades[6]] are total
      functions from the index, updated pointwise.
    - The random source is a stream [draws : Z -> R]; [draws t] is the value
      [distribution(generator)] yields at tick [t].
    - [prices.reserve(totalTicks)] changes no value; its one observable effect,
      the exception for a negative tick count, is in [simulate_checked]. *)

From Stdlib Require Import Reals Lra Lia ZArith List Bool SpecFloat.
Import ListNotations.

Open Scope R_scope.

(** ** Comparisons of doubles as booleans *)

Definition Rltb (x y : R) : bool := if Rlt_dec x y then true else false.
Definition Rgtb (x y : R) : bool := Rltb y x.

(** ** The [for] loop with an integer counter

    [for (int i = lo; i <= hi; i++) a = body i a]. *)

Fixpoint for_from {A : Type} (n : nat) (i : Z) (body : Z -> A -> A) (a : A) : A :=
  match n with
  | O => a
  | S n' => for_from n' (i + 1)%Z body (body i a)
  end.

Definition for_range {A : Type} (lo hi : Z) (body : Z -> A -> A) (a : A) : A :=
  for_from (Z.to_nat (hi - lo + 1)) lo body a.

(** ** Trade record *)

Record Trade : Type := mkTrade {
  strategyType : Z;
  entryTick : Z;
  exitTick : Z;
  entryPrice : R;
  exitPrice : R;
  strike1 : R;
  strike2 : R;
  strike3 : R;
  volume : Z;
  payoff : R;
  open : bool
}.

(** ** Option payoff functions (zero premiums) *)

Definition straddlePayoff (S K : R) : R :=
  let call := Rmax (S - K) 0 in
  let put := Rmax (K - S) 0 in
  call + put.

Definition stranglePayoff (S K1 K2 : R) : R :=
  let put := Rmax (K1 - S) 0 in
  let call := Rmax (S - K2) 0 in
  put + call.

Definition bullSpreadPayoff (S K1 K2 : R) : R :=
  let longCall := Rmax (S - K1) 0 in
  let shortCall := Rmax (S - K2) 0 in
  longCall - shortCall.

Definition bearSpreadPayoff (S K1 K2 : R) : R :=
  let longPut := Rmax (K1 - S) 0 in
  let shortPut := Rmax (S - K2) 0 in
  longPut - shortPut.

Definition butterflySpreadPayoff (S K1 K2 K3 : R) : R :=
  let longCall1 := Rmax (S - K1) 0 in
  let shortCalls := 2 * Rmax (S - K2) 0 in
  let longCall2 := Rmax (S - K3) 0 in
  longCall1 - shortCalls + longCall2.

(** ** Indicator functions: moving average and volatility *)

Definition at_index (prices : list R) (i : Z) : R := nth (Z.to_nat i) prices 0.

Definition computeMA (prices : list R) (currentTick window : Z) : R :=
  if (currentTick <? window - 1)%Z then at_index prices currentTick
  else
    let sum :=
      for_range (currentTick - window + 1) currentTick
        (fun i sum => sum + at_index prices i) 0 in
    sum / IZR window.

(** The first loop of [computeVolatility]: the vector [returns]. *)
Definition collect_returns (prices : list R) (currentTick window : Z) : list R :=
  for_range (currentTick - window + 1) currentTick
    (fun i returns =>
       if (i =? 0)%Z then returns
       else
         let r := ln (at_index prices i / at_index prices (i - 1)) in
         returns ++ [r])
    [].

Definition computeVolatility (prices : list R) (currentTick window : Z) : R :=
  if (currentTick <? window)%Z then 0
  else
    let returns := collect_returns prices currentTick window in
    let mean := fold_left (fun mean r => mean + r) returns 0 in
    let mean := mean / INR (length returns) in
    let variance :=
      fold_left (fun variance r => variance + (r - mean) * (r - mean)) returns 0 in
    let variance := variance / INR (length returns) in
    sqrt variance.

(** ** Field updates of a [Trade] (the assignments [activeTrades[k].f = v]) *)

Definition set_strategyType (v : Z) (tr : Trade) : Trade :=
  mkTrade v (entryTick tr) (exitTick tr) (entryPrice tr) (exitPrice tr)
    (strike1 tr) (strike2 tr) (strike3 tr) (volume tr) (payoff tr) (open tr).
Definition set_entryTick (v : Z) (tr : Trade) : Trade :=
  mkTrade (strategyType tr) v (exitTick tr) (entryPrice tr) (exitPrice tr)
    (strike1 tr) (strike2 tr) (strike3 tr) (volume tr) (payoff tr) (open tr).
Definition set_exitTick (v : Z) (tr : Trade) : Trade :=
  mkTrade (strategyType tr) (entryTick tr) v (entryPrice tr) (exitPrice tr)
    (strike1 tr) (strike2 tr) (strike3 tr) (volume tr) (payoff tr) (open tr).
Definition set_entryPrice (v : R) (tr : Trade) : Trade :=
  mkTrade (strategyType tr) (entryTick tr) (exitTick tr) v (exitPrice tr)
    (strike1 tr) (strike2 tr) (strike3 tr) (volume tr) (payoff tr) (open tr).
Definition set_exitPrice (v : R) (tr : Trade) : Trade :=
  mkTrade (strategyType tr) (entryTick tr) (exitTick tr) (entryPrice tr) v
    (strike1 tr) (strike2 tr) (strike3 tr) (volume tr) (payoff tr) (open tr).
Definition set_strike1 (v : R) (tr : Trade) : Trade :=
  mkTrade (strategyType tr) (entryTick tr) (exitTick tr) (entryPrice tr) (exitPrice tr)
    v (strike2 tr) (strike3 tr) (volume tr) (payoff tr) (open tr).
Definition set_strike2 (v : R) (tr : Trade) : Trade :=
  mkTrade (strategyType tr) (entryTick tr) (exitTick tr) (entryPrice tr) (exitPrice tr)
    (strike1 tr) v (strike3 tr) (volume tr) (payoff tr) (open tr).
Definition set_strike3 (v : R) (tr : Trade) : Trade :=
  mkTrade (strategyType tr) (entryTick tr) (exitTick tr) (entryPrice tr) (exitPrice tr)
    (strike1 tr) (strike2 tr) v (volume tr) (payoff tr) (open tr).
Definition set_volume (v : Z) (tr : Trade) : Trade :=
  mkTrade (strategyType tr) (entryTick tr) (exitTick tr) (entryPrice tr) (exitPrice tr)
    (strike1 tr) (strike2 tr) (strike3 tr) v (payoff tr) (open tr).
Definition set_payoff (v : R) (tr : Trade) : Trade :=
  mkTrade (strategyType tr) (entryTick tr) (exitTick tr) (entryPrice tr) (exitPrice tr)
    (strike1 tr) (strike2 tr) (strike3 tr) (volume tr) v (open tr).
Definition set_open (v : bool) (tr : Trade) : Trade :=
  mkTrade (strategyType tr) (entryTick tr) (exitTick tr) (entryPrice tr) (exitPrice tr)
    (strike1 tr) (strike2 tr) (strike3 tr) (volume tr) (payoff tr) v.

(** ** Simulation parameters: the [const] locals of [main] *)

Record Config : Type := mkConfig {
  totalTicks : Z;
  S0 : R;
  mu : R;
  sigma : R;
  dt : R;
  holdPeriod : Z;
  delta : R;
  shortWindow : Z;
  longWindow : Z;
  volWindow : Z;
  volThresholdHigh : R;
  volThresholdLow : R;
  volThresholdHighStrangle : R;
  volThresholdLowStrangle : R
}.

(** The values [main] is compiled with. *)
Definition main_config : Config :=
  mkConfig 10000 100 0.0001 0.01 1 10 0.05 5 20 5 0.01 0.005 0.012 0.007.

(** ** Simulation state: the mutable locals of [main] *)

Definition upd {A : Type} (a : nat -> A) (k : nat) (v : A) : nat -> A :=
  fun j => if Nat.eqb j k then v else a j.

Record SimState : Type := mkState {
  prices : list R;
  cumulativePnL : nat -> R;
  activeTrades : nat -> Trade
}.

Definition set_trade (k : nat) (tr : Trade) (st : SimState) : SimState :=
  mkState (prices st) (cumulativePnL st) (upd (activeTrades st) k tr).

Definition add_pnl (k : nat) (x : R) (st : SimState) : SimState :=
  mkState (prices st) (upd (cumulativePnL st) k (cumulativePnL st k + x))
    (activeTrades st).

Definition push_price (p : R) (st : SimState) : SimState :=
  mkState (prices st ++ [p]) (cumulativePnL st) (activeTrades st).

(** ** Price path: one step of geometric Brownian motion *)

Definition nextPrice (c : Config) (S_prev Z : R) : R :=
  S_prev * exp ((mu c - 0.5 * sigma c * sigma c) * dt c + sigma c * sqrt (dt c) * Z).

(** ** Alpha signals: [+1] enter, [-1] exit, [0] neither *)

Definition signalStraddle (c : Config) (volatility : R) : Z :=
  if Rgtb volatility (volThresholdHigh c) then 1%Z
  else if Rltb volatility (volThresholdLow c) then (-1)%Z
  else 0%Z.

Definition signalStrangle (c : Config) (volatility : R) : Z :=
  if Rgtb volatility (volThresholdHighStrangle c) then 1%Z
  else if Rltb volatility (volThresholdLowStrangle c) then (-1)%Z
  else 0%Z.

Definition signalBull (shortMA longMA : R) : Z :=
  if Rgtb shortMA longMA then 1%Z else (-1)%Z.

Definition signalBear (shortMA longMA : R) : Z :=
  if Rltb shortMA longMA then 1%Z else (-1)%Z.

Definition signalButterfly (c : Config) (volatility : R) : Z :=
  if Rltb volatility (volThresholdLow c) then 1%Z else (-1)%Z.

(** ** Trade execution: the five per-strategy blocks of the main loop

    Each block reads and writes one slot of [activeTrades] and one cell of
    [cumulativePnL]; [t] is the loop counter and [S_new] the price of this
    tick. *)

(** Strategy 1: straddle. *)
Definition execStraddle (c : Config) (t : Z) (S_new : R) (alphaStraddle : Z)
    (st : SimState) : SimState :=
  let tr := activeTrades st 1 in
  if negb (open tr) && (alphaStraddle =? 1)%Z then
    set_trade 1
      (set_volume 10 (set_strike1 S_new
        (set_entryPrice S_new (set_entryTick t
          (set_strategyType 1 (set_open true tr)))))) st
  else if open tr then
    if (t - entryTick tr >=? holdPeriod c)%Z || (alphaStraddle =? -1)%Z then
      let tr := set_exitPrice S_new (set_exitTick t tr) in
      let payoff_ := straddlePayoff S_new (strike1 tr) in
      let tr := set_payoff (payoff_ * IZR (volume tr)) tr in
      set_trade 1 (set_open false tr) (add_pnl 1 (payoff tr) st)
    else st
  else st.

(** Strategy 2: strangle. *)
Definition execStrangle (c : Config) (t : Z) (S_new : R) (alphaStrangle : Z)
    (st : SimState) : SimState :=
  let tr := activeTrades st 2 in
  if negb (open tr) && (alphaStrangle =? 1)%Z then
    set_trade 2
      (set_volume 10 (set_strike2 (S_new * (1 + delta c))
        (set_strike1 (S_new * (1 - delta c))
          (set_entryPrice S_new (set_entryTick t
            (set_strategyType 2 (set_open true tr))))))) st
  else if open tr then
    if (t - entryTick tr >=? holdPeriod c)%Z || (alphaStrangle =? -1)%Z then
      let tr := set_exitPrice S_new (set_exitTick t tr) in
      let payoff_ := stranglePayoff S_new (strike1 tr) (strike2 tr) in
      let tr := set_payoff (payoff_ * IZR (volume tr)) tr in
      set_trade 2 (set_open false tr) (add_pnl 2 (payoff tr) st)
    else st
  else st.

(** Strategy 3: bull spread (calls). *)
Definition execBull (c : Config) (t : Z) (S_new : R) (alphaBull : Z)
    (st : SimState) : SimState :=
  let tr := activeTrades st 3 in
  if negb (open tr) && (alphaBull =? 1)%Z then
    set_trade 3
      (set_volume 10 (set_strike2 (S_new * (1 + delta c))
        (set_strike1 (S_new * (1 - delta c))
          (set_entryPrice S_new (set_entryTick t
            (set_strategyType 3 (set_open true tr))))))) st
  else if open tr then
    if (t - entryTick tr >=? holdPeriod c)%Z || (alphaBull =? -1)%Z then
      let tr := set_exitPrice S_new (set_exitTick t tr) in
      let payoff_ := bullSpreadPayoff S_new (strike1 tr) (strike2 tr) in
      let tr := set_payoff (payoff_ * IZR (volume tr)) tr in
      set_trade 3 (set_open false tr) (add_pnl 3 (payoff tr) st)
    else st
  else st.

(** Strategy 4: bear spread (puts). *)
Definition execBear (c : Config) (t : Z) (S_new : R) (alphaBear : Z)
    (st : SimState) : SimState :=
  let tr := activeTrades st 4 in
  if negb (open tr) && (alphaBear =? 1)%Z then
    set_trade 4
      (set_volume 10 (set_strike2 (S_new * (1 - delta c))
        (set_strike1 (S_new * (1 + delta c))
          (set_entryPrice S_new (set_entryTick t
            (set_strategyType 4 (set_open true tr))))))) st
  else if open tr then
    if (t - entryTick tr >=? holdPeriod c)%Z || (alphaBear =? -1)%Z then
      let tr := set_exitPrice S_new (set_exitTick t tr) in
      let payoff_ := bearSpreadPayoff S_new (strike1 tr) (strike2 tr) in
      let tr := set_payoff (payoff_ * IZR (volume tr)) tr in
      set_trade 4 (set_open false tr) (add_pnl 4 (payoff tr) st)
    else st
  else st.

(** Strategy 5: butterfly spread (calls). *)
Definition execButterfly (c : Config) (t : Z) (S_new : R) (alphaButterfly : Z)
    (st : SimState) : SimState :=
  let tr := activeTrades st 5 in
  if negb (open tr) && (alphaButterfly =? 1)%Z then
    set_trade 5
      (set_volume 10 (set_strike3 (S_new * (1 + delta c))
        (set_strike2 S_new (set_strike1 (S_new * (1 - delta c))
          (set_entryPrice S_new (set_entryTick t
            (set_strategyType 5 (set_open true tr)))))))) st
  else if open tr then
    if (t - entryTick tr >=? holdPeriod c)%Z || (alphaButterfly =? -1)%Z then
      let tr := set_exitPrice S_new (set_exitTick t tr) in
      let payoff_ :=
        butterflySpreadPayoff S_new (strike1 tr) (strike2 tr) (strike3 tr) in
      let tr := set_payoff (payoff_ * IZR (volume tr)) tr in
      set_trade 5 (set_open false tr) (add_pnl 5 (payoff tr) st)
    else st
  else st.

(** ** One iteration of the main loop *)

Definition tick (c : Config) (draws : Z -> R) (t : Z) (st : SimState) : SimState :=
  (* simulate the underlying price *)
  let Z := draws t in
  let S_prev := last (prices st) 0 in
  let S_new := nextPrice c S_prev Z in
  let st := push_price S_new st in
  (* indicators *)
  let shortMA := computeMA (prices st) t (shortWindow c) in
  let longMA := computeMA (prices st) t (longWindow c) in
  let volatility := computeVolatility (prices st) t (volWindow c) in
  (* alpha signals *)
  let alphaStraddle := signalStraddle c volatility in
  let alphaStrangle := signalStrangle c volatility in
  let alphaBull := signalBull shortMA longMA in
  let alphaBear := signalBear shortMA longMA in
  let alphaButterfly := signalButterfly c volatility in
  (* trade execution *)
  let st := execStraddle c t S_new alphaStraddle st in
  let st := execStrangle c t S_new alphaStrangle st in
  let st := execBull c t S_new alphaBull st in
  let st := execBear c t S_new alphaBear st in
  execButterfly c t S_new alphaButterfly st.

(** ** [main]

    [junk] stands for the indeterminate contents of the uninitialised array
    [activeTrades]; only the [open] flag of slots 1..5 is written before the
    loop. *)

Definition init (c : Config) (junk : nat -> Trade) : SimState :=
  let activeTrades :=
    for_range 1 5
      (fun i a => upd a (Z.to_nat i) (set_open false (a (Z.to_nat i)))) junk in
  mkState [S0 c] (fun _ => 0) activeTrades.

(** The state after the first [n] iterations of the main loop. *)
Definition run (c : Config) (junk : nat -> Trade) (draws : Z -> R) (n : nat) : SimState :=
  for_from n 1%Z (fun t st => tick c draws t st) (init c junk).

Definition simulate (c : Config) (junk : nat -> Trade) (draws : Z -> R) : SimState :=
  for_range 1 (totalTicks c - 1) (fun t st => tick c draws t st) (init c junk).

(** Final reporting: the value printed as [Total PnL]. *)
Definition totalPnL (st : SimState) : R :=
  for_range 1 5 (fun i totalPnL => totalPnL + cumulativePnL st (Z.to_nat i)) 0.

Definition main (c : Config) (junk : nat -> Trade) (draws : Z -> R) : (nat -> R) * R :=
  let st := simulate c junk draws in
  (cumulativePnL st, totalPnL st).

(** [prices.reserve(totalTicks)] comes before the loop.  Its argument is
    converted to an unsigned size: a negative tick count becomes a size above
    the largest a vector can have, [reserve] throws [std::length_error],
    nothing catches it and the program ends without a result ([None]). *)
Definition simulate_checked (c : Config) (junk : nat -> Trade) (draws : Z -> R)
    : option SimState :=
  if (totalTicks c <? 0)%Z then None else Some (simulate c junk draws).

(** ** Strategies, and the common shape of the five blocks *)

Inductive Strategy : Type :=
  | Straddle | Strangle | BullSpread | BearSpread | ButterflySpread.

(** Index of a strategy in [activeTrades] and [cumulativePnL]. *)
Definition slot (s : Strategy) : nat :=
  match s with
  | Straddle => 1 | Strangle => 2 | BullSpread => 3
  | BearSpread => 4 | ButterflySpread => 5
  end.

(** The block of the main loop that serves a strategy. *)
Definition exec (s : Strategy) : Config -> Z -> R -> Z -> SimState -> SimState :=
  match s with
  | Straddle => execStraddle
  | Strangle => execStrangle
  | BullSpread => execBull
  | BearSpread => execBear
  | ButterflySpread => execButterfly
  end.

(** The strikes a block writes when it opens a trade at price [S]. *)
Definition assign_strikes (s : Strategy) (c : Config) (S : R) (tr : Trade) : Trade :=
  match s with
  | Straddle => set_strike1 S tr
  | Strangle | BullSpread =>
      set_strike2 (S * (1 + delta c)) (set_strike1 (S * (1 - delta c)) tr)
  | BearSpread =>
      set_strike2 (S * (1 - delta c)) (set_strike1 (S * (1 + delta c)) tr)
  | ButterflySpread =>
      set_strike3 (S * (1 + delta c))
        (set_strike2 S (set_strike1 (S * (1 - delta c)) tr))
  end.

(** The payoff function a block calls at closure, on the recorded strikes. *)
Definition payoff_of (s : Strategy) (S : R) (tr : Trade) : R :=
  match s with
  | Straddle => straddlePayoff S (strike1 tr)
  | Strangle => stranglePayoff S (strike1 tr) (strike2 tr)
  | BullSpread => bullSpreadPayoff S (strike1 tr) (strike2 tr)
  | BearSpread => bearSpreadPayoff S (strike1 tr) (strike2 tr)
  | ButterflySpread =>
      butterflySpreadPayoff S (strike1 tr) (strike2 tr) (strike3 tr)
  end.

(** Which branch of a block is taken. *)
Inductive Event : Type := Opened | Closed | Idle.

Definition event_of (c : Config) (t : Z) (alpha : Z) (tr : Trade) : Event :=
  if negb (open tr) && (alpha =? 1)%Z then Opened
  else if open tr then
    if (t - entryTick tr >=? holdPeriod c)%Z || (alpha =? -1)%Z then Closed
    else Idle
  else Idle.

Definition Event_eqb (a b : Event) : bool :=
  match a, b with
  | Opened, Opened | Closed, Closed | Idle, Idle => true
  | _, _ => false
  end.

(** The record written by the opening branch. *)
Definition opened_trade (s : Strategy) (c : Config) (t : Z) (S : R) (tr : Trade) : Trade :=
  set_volume 10 (assign_strikes s c S
    (set_entryPrice S (set_entryTick t
      (set_strategyType (Z.of_nat (slot s)) (set_open true tr))))).

(** The record written by the closing branch. *)
Definition closed_trade (s : Strategy) (t : Z) (S : R) (tr : Trade) : Trade :=
  set_open false
    (set_payoff (payoff_of s S tr * IZR (volume tr))
      (set_exitPrice S (set_exitTick t tr))).

(** One parametrised state machine for the five blocks. *)
Definition lifecycle (s : Strategy) (c : Config) (t : Z) (S_new : R) (alpha : Z)
    (st : SimState) : SimState :=
  let tr := activeTrades st (slot s) in
  match event_of c t alpha tr with
  | Opened => set_trade (slot s) (opened_trade s c t S_new tr) st
  | Closed =>
      set_trade (slot s) (closed_trade s t S_new tr)
        (add_pnl (slot s) (payoff_of s S_new tr * IZR (volume tr)) st)
  | Idle => st
  end.

(** What the simulation keeps for one strategy: its trade slot and its total. *)
Definition view (k : nat) (st : SimState) : Trade * R :=
  (activeTrades st k, cumulativePnL st k).

(** The state machine of one strategy, on its own slot and total. *)
Definition slot_step (s : Strategy) (c : Config) (t : Z) (S_new : R) (alpha : Z)
    (v : Trade * R) : Trade * R :=
  match event_of c t alpha (fst v) with
  | Opened => (opened_trade s c t S_new (fst v), snd v)
  | Closed =>
      (closed_trade s t S_new (fst v),
       snd v + payoff_of s S_new (fst v) * IZR (volume (fst v)))
  | Idle => v
  end.

(** ** The signals of a tick, per strategy *)

Definition signal_of (s : Strategy) (c : Config) (prices : list R) (t : Z) : Z :=
  let shortMA := computeMA prices t (shortWindow c) in
  let longMA := computeMA prices t (longWindow c) in
  let volatility := computeVolatility prices t (volWindow c) in
  match s with
  | Straddle => signalStraddle c volatility
  | Strangle => signalStrangle c volatility
  | BullSpread => signalBull shortMA longMA
  | BearSpread => signalBear shortMA longMA
  | ButterflySpread => signalButterfly c volatility
  end.

(** Price of tick [t] as the loop body computes it from the state before. *)
Definition tick_price (c : Config) (draws : Z -> R) (t : Z) (st : SimState) : R :=
  nextPrice c (last (prices st) 0) (draws t).

(** Branch taken by strategy [s] at tick [t] from state [st]. *)
Definition tick_event (s : Strategy) (c : Config) (draws : Z -> R) (t : Z)
    (st : SimState) : Event :=
  event_of c t
    (signal_of s c (prices st ++ [tick_price c draws t st]) t)
    (activeTrades st (slot s)).

(** Number of ticks among the first [n] at which strategy [s] takes branch [e]. *)
Fixpoint count_events (e : Event) (s : Strategy) (c : Config) (junk : nat -> Trade)
    (draws : Z -> R) (n : nat) : nat :=
  match n with
  | O => O
  | S k =>
      count_events e s c junk draws k +
      (if Event_eqb (tick_event s c draws (Z.of_nat (S k)) (run c junk draws k)) e
       then 1 else 0)%nat
  end.

(** ** Reference definitions of the indicators, following the specification *)

(** The [n] elements of [l] starting at position [lo]. *)
Definition slice (l : list R) (lo n : nat) : list R := firstn n (skipn lo l).

Definition Rsum (l : list R) : R := fold_right Rplus 0 l.

Definition mean (l : list R) : R := Rsum l / INR (length l).

(** Population standard deviation: the divisor is the number of values. *)
Definition pop_stddev (l : list R) : R :=
  sqrt (Rsum (map (fun r => (r - mean l) * (r - mean l)) l) / INR (length l)).

(** Log-returns [ln (p_i / p_(i-1))] of consecutive prices of [l]. *)
Fixpoint log_returns (l : list R) : list R :=
  match l with
  | p :: ((q :: _) as tl) => ln (q / p) :: log_returns tl
  | _ => []
  end.

(** ** The indicators with every undefined operation checked

    Two operations of the indicator functions are undefined behaviour in the
    source: [prices[i]] outside the vector, and arithmetic on [int] whose
    result is outside the range of a 32-bit [int].  The checked versions run
    the same statements in the same order and give [None] as soon as one of
    them is undefined. *)

Definition INT_MAX : Z := 2147483647.
Definition INT_MIN : Z := -2147483648.

(** The result [z] of an [int] operation, if it is an [int]. *)
Definition int_checked (z : Z) : option Z :=
  if ((INT_MIN <=? z) && (z <=? INT_MAX))%Z then Some z else None.

Definition read (prices : list R) (i : Z) : option R :=
  if ((0 <=? i) && (i <? Z.of_nat (length prices)))%Z
  then Some (at_index prices i) else None.

(** [currentTick - window + 1], evaluated from the left. *)
Definition loop_start (currentTick window : Z) : option Z :=
  match int_checked (currentTick - window) with
  | Some d => int_checked (d + 1)
  | None => None
  end.

(** [for (int i = lo; i <= hi; i++)]: when the loop runs at all, the increment
    after its last iteration computes [hi + 1]. *)
Definition for_range_checked {A : Type} (lo hi : Z)
    (body : Z -> option A -> option A) (a : option A) : option A :=
  if (lo <=? hi)%Z then
    match int_checked (hi + 1) with
    | Some _ => for_range lo hi body a
    | None => None
    end
  else a.

Definition computeMA_checked (prices : list R) (currentTick window : Z) : option R :=
  match int_checked (window - 1) with
  | None => None
  | Some w1 =>
      if (currentTick <? w1)%Z then read prices currentTick
      else
        match loop_start currentTick window with
        | None => None
        | Some lo =>
            let sum :=
              for_range_checked lo currentTick
                (fun i sum =>
                   match sum, read prices i with
                   | Some sum, Some p => Some (sum + p)
                   | _, _ => None
                   end) (Some 0) in
            match sum with
            | Some sum => Some (sum / IZR window)
            | None => None
            end
        end
  end.

Definition collect_returns_checked (prices : list R) (currentTick window : Z)
    : option (list R) :=
  match loop_start currentTick window with
  | None => None
  | Some lo =>
      for_range_checked lo currentTick
        (fun i returns =>
           if (i =? 0)%Z then returns
           else
             match returns, read prices i, int_checked (i - 1) with
             | Some returns, Some p, Some j =>
                 match read prices j with
                 | Some q => Some (returns ++ [ln (p / q)])
                 | None => None
                 end
             | _, _, _ => None
             end)
        (Some [])
  end.

(** The part of [computeVolatility] after the vector [returns] is built. *)
Definition volatility_of (returns : list R) : R :=
  let mean := fold_left (fun mean r => mean + r) returns 0 in
  let mean := mean / INR (length returns) in
  let variance :=
    fold_left (fun variance r => variance + (r - mean) * (r - mean)) returns 0 in
  let variance := variance / INR (length returns) in
  sqrt variance.

Definition computeVolatility_checked (prices : list R) (currentTick window : Z)
    : option R :=
  if (currentTick <? window)%Z then Some 0
  else
    match collect_returns_checked prices currentTick window with
    | Some returns => Some (volatility_of returns)
    | None => None
    end.

(** ** Ledger bookkeeping *)

(** Sum of the [payoff] fields left in the slot of strategy [s] by the closures
    among the first [n] ticks. *)
Fixpoint realized (s : Strategy) (c : Config) (junk : nat -> Trade)
    (draws : Z -> R) (n : nat) : R :=
  match n with
  | O => 0
  | S k =>
      realized s c junk draws k +
      (if Event_eqb (tick_event s c draws (Z.of_nat (S k)) (run c junk draws k)) Closed
       then payoff (activeTrades (run c junk draws (S k)) (slot s))
       else 0)
  end.

(** The strikes of a trade as the opening branch derives them from the entry
    price. *)
Definition strikes_from_entry (s : Strategy) (c : Config) (tr : Trade) : Prop :=
  match s with
  | Straddle => strike1 tr = entryPrice tr
  | Strangle | BullSpread =>
      strike1 tr = entryPrice tr * (1 - delta c) /\
      strike2 tr = entryPrice tr * (1 + delta c)
  | BearSpread =>
      strike1 tr = entryPrice tr * (1 + delta c) /\
      strike2 tr = entryPrice tr * (1 - delta c)
  | ButterflySpread =>
      strike1 tr = entryPrice tr * (1 - delta c) /\
      strike2 tr = entryPrice tr /\
      strike3 tr = entryPrice tr * (1 + delta c)
  end.

(** What the record of an open trade of strategy [s] holds after [n] ticks:
    the strategy number, the volume, an entry tick among the ticks run so far,
    the price of that tick, and the strikes derived from it. *)
Definition open_trade_ok (s : Strategy) (c : Config) (n : nat) (prices : list R)
    (tr : Trade) : Prop :=
  strategyType tr = Z.of_nat (slot s) /\
  volume tr = 10%Z /\
  (1 <= entryTick tr <= Z.of_nat n)%Z /\
  entryPrice tr = at_index prices (entryTick tr) /\
  strikes_from_entry s c tr.

(** ** The price step in double arithmetic

    Whether a price can reach zero is a matter of rounding, which the real
    numbers cannot show.  Here a [double] is an IEEE 754 binary64 number of
    [SpecFloat], with its rounded product, sum, difference and square root
    (each operation rounded on its own, none fused); [exp] of <cmath>, which
    is not part of the program, is a parameter. *)

Definition double : Type := spec_float.
Definition dprec : Z := 53.
Definition demax : Z := 1024.
Definition dmul : double -> double -> double := SFmul dprec demax.
Definition dadd : double -> double -> double := SFadd dprec demax.
Definition dsub : double -> double -> double := SFsub dprec demax.
Definition dsqrt : double -> double := SFsqrt dprec demax.
Definition dzero : double := S754_zero false.

(** The double nearest to an integer, and the constant [0.5]. *)
Definition double_of_Z (z : Z) : double := binary_normalize dprec demax z 0 false.
Definition dhalf : double := Eval vm_compute in binary_round dprec demax false 1 (-1).

(** [x < 0.0] is false: [x] is zero, positive, plus infinity or NaN. *)
Definition not_negative (x : double) : Prop := SFltb x dzero = false.

(** Zero or finite, as every draw of [normal_distribution] is. *)
Definition is_finite (x : double) : bool :=
  match x with
  | S754_zero _ | S754_finite _ _ _ => true
  | _ => false
  end.

(** [S_prev * exp((mu - 0.5 * sigma * sigma) * dt + sigma * sqrt(dt) * Z)],
    each operation rounded, in the order the expression is evaluated. *)
Definition nextPrice_double (exp_impl : double -> double)
    (S_prev mu sigma dt Z : double) : double :=
  dmul S_prev
    (exp_impl
       (dadd (dmul (dsub mu (dmul (dmul dhalf sigma) sigma)) dt)
             (dmul (dmul sigma (dsqrt dt)) Z))).

(** The vector [prices] after [n] iterations of the main loop. *)
Fixpoint price_path_double (exp_impl : double -> double) (S0 mu sigma dt : double)
    (draws : nat -> double) (n : nat) : list double :=
  match n with
  | O => [S0]
  | S k =>
      let prices := price_path_double exp_impl S0 mu sigma dt draws k in
      prices ++ [nextPrice_double exp_impl (last prices S0) mu sigma dt (draws (S k))]
  end.

(** The double nearest to [exp (-1)], 0x1.78b56362cef38p-2. *)
Definition exp_minus_one : double := S754_finite false 6627126856707896 (-54).

(** A stand-in for [exp] in examples: right at [-1], and 1 elsewhere. *)
Definition exp_sample (x : double) : double :=
  if SFeqb x (double_of_Z (-1)) then exp_minus_one else double_of_Z 1.

(** ** Scenarios *)

(** A trade record standing for uninitialised memory in examples. *)
Definition junk0 : nat -> Trade :=
  fun _ => mkTrade 0 0 0 0 0 0 0 0 0 0 true.

(** The configuration of [main] with drift and volatility set to zero. *)
Definition calm_config : Config :=
  mkConfig 10000 100 0 0 1 10 0.05 5 20 5 0.01 0.005 0.012 0.007.

(** State of the butterfly slot in the calm market after [11 * q + r] ticks,
    [r < 11]: [q] trades closed at 50 each, and a trade open since tick
    [11 * q + 1] unless [r = 0]. *)
Definition calm_butterfly_inv (q r : nat) (v : Trade * R) : Prop :=
  snd v = 50 * INR q /\
  (r = 0%nat -> open (fst v) = false) /\
  (r <> 0%nat ->
     open (fst v) = true /\
     entryTick (fst v) = Z.of_nat (11 * q + 1) /\
     strike1 (fst v) = 100 * (1 - 0.05) /\
     strike2 (fst v) = 100 /\
     strike3 (fst v) = 100 * (1 + 0.05) /\
     volume (fst v) = 10%Z).

(** Branch the butterfly block takes in the calm market at tick [11 * q + r + 1]. *)
Definition calm_butterfly_event (r : nat) : Event :=
  if Nat.eqb r 0 then Opened else if Nat.eqb r 10 then Closed else Idle.

(** The draw that moves the price from [S_prev] to [S_next]. *)
Definition draw_for (c : Config) (S_prev S_next : R) : R :=
  (ln (S_next / S_prev) - (mu c - 0.5 * sigma c * sigma c) * dt c)
  / (sigma c * sqrt (dt c)).

(** A price path on which the bear spread loses, and draws that produce it. *)
Definition bear_path : list R := [100; 100; 100; 100; 101; 104; 101.2].

Definition bear_draws : Z -> R :=
  fun t => draw_for main_config (at_index bear_path (t - 1)) (at_index bear_path t).

(** * Properties *)

(** ** Boolean comparisons *)

Lemma Rltb_true x y : Rltb x y = true <-> x < y.
Proof. unfold Rltb; destruct (Rlt_dec x y); split; intros; auto; discriminate. Qed.

Lemma Rltb_false x y : Rltb x y = false <-> y <= x.
Proof.
  unfold Rltb; destruct (Rlt_dec x y); split; intros; auto; try discriminate; lra.
Qed.

Lemma Rgtb_true x y : Rgtb x y = true <-> x > y.
Proof. unfold Rgtb; rewrite Rltb_true; lra. Qed.

Lemma Rgtb_false x y : Rgtb x y = false <-> x <= y.
Proof. unfold Rgtb; rewrite Rltb_false; lra. Qed.

Ltac rcases :=
  repeat match goal with
  | |- context [Rltb ?x ?y] =>
      let H := fresh "Hc" in
      destruct (Rltb x y) eqn:H;
      [apply Rltb_true in H | apply Rltb_false in H]
  end.

(** ** Loops *)

Lemma for_from_snoc {A : Type} (body : Z -> A -> A) (n : nat) :
  forall (i : Z) (a : A),
    for_from (S n) i body a = body (i + Z.of_nat n)%Z (for_from n i body a).
Proof.
  induction n as [|n IH]; intros i a.
  - simpl. now rewrite Z.add_0_r.
  - change (for_from (S (S n)) i body a) with (for_from (S n) (i + 1)%Z body (body i a)).
    rewrite IH. simpl for_from at 2.
    f_equal. lia.
Qed.

Lemma run_S c junk draws n :
  run c junk draws (S n) = tick c draws (Z.of_nat (S n)) (run c junk draws n).
Proof.
  unfold run. rewrite for_from_snoc. f_equal. lia.
Qed.

Lemma simulate_run c junk draws :
  simulate c junk draws = run c junk draws (Z.to_nat (totalTicks c - 1)).
Proof.
  unfold simulate, for_range, run. f_equal. f_equal. lia.
Qed.

(** ** Payoff library *)

Lemma Rmax_pos_l x : 0 <= x -> Rmax x 0 = x.
Proof. intros; unfold Rmax; destruct (Rle_dec x 0); lra. Qed.

Lemma Rmax_neg_l x : x <= 0 -> Rmax x 0 = 0.
Proof. intros; unfold Rmax; destruct (Rle_dec x 0); lra. Qed.

Lemma Rmax_0_nonneg x : 0 <= Rmax x 0.
Proof. apply Rmax_r. Qed.

(** C6. The five payoff functions are the intrinsic-value formulas of the
    specification, for all real arguments, and take the listed boundary
    values: straddle(100,100) = 0, straddle(150,100) = 50,
    straddle(50,100) = 50 and bullSpread(120,90,110) = 20. *)
Theorem payoff_formulas :
  (forall S K, straddlePayoff S K = Rmax (S - K) 0 + Rmax (K - S) 0) /\
  (forall S K1 K2, stranglePayoff S K1 K2 = Rmax (K1 - S) 0 + Rmax (S - K2) 0) /\
  (forall S K1 K2, bullSpreadPayoff S K1 K2 = Rmax (S - K1) 0 - Rmax (S - K2) 0) /\
  (forall S K1 K2, bearSpreadPayoff S K1 K2 = Rmax (K1 - S) 0 - Rmax (S - K2) 0) /\
  (forall S K1 K2 K3,
     butterflySpreadPayoff S K1 K2 K3 =
     Rmax (S - K1) 0 - 2 * Rmax (S - K2) 0 + Rmax (S - K3) 0) /\
  straddlePayoff 100 100 = 0 /\
  straddlePayoff 150 100 = 50 /\
  straddlePayoff 50 100 = 50 /\
  bullSpreadPayoff 120 90 110 = 20.
Proof.
  repeat split; try reflexivity.
  - unfold straddlePayoff. rewrite !Rmax_neg_l by lra. lra.
  - unfold straddlePayoff.
    rewrite (Rmax_pos_l (150 - 100)), (Rmax_neg_l (100 - 150)) by lra. lra.
  - unfold straddlePayoff.
    rewrite (Rmax_neg_l (50 - 100)), (Rmax_pos_l (100 - 50)) by lra. lra.
  - unfold bullSpreadPayoff. rewrite !Rmax_pos_l by lra. lra.
Qed.

(** ** Signal generation *)

Lemma signalBull_cases shortMA longMA :
  (shortMA > longMA /\ signalBull shortMA longMA = 1%Z) \/
  (shortMA <= longMA /\ signalBull shortMA longMA = (-1)%Z).
Proof. unfold signalBull, Rgtb. rcases; [left | right]; split; auto; lra. Qed.

Lemma signalBear_cases shortMA longMA :
  (shortMA < longMA /\ signalBear shortMA longMA = 1%Z) \/
  (longMA <= shortMA /\ signalBear shortMA longMA = (-1)%Z).
Proof. unfold signalBear. rcases; [left | right]; split; auto; lra. Qed.

Lemma signalButterfly_cases c volatility :
  (volatility < volThresholdLow c /\ signalButterfly c volatility = 1%Z) \/
  (volThresholdLow c <= volatility /\ signalButterfly c volatility = (-1)%Z).
Proof. unfold signalButterfly. rcases; [left | right]; split; auto; lra. Qed.

(** The three-way signals, for thresholds in any order: entry has priority. *)
Lemma signalStraddle_cases c volatility :
  (volatility > volThresholdHigh c /\ signalStraddle c volatility = 1%Z) \/
  (volatility <= volThresholdHigh c /\ volatility < volThresholdLow c /\
   signalStraddle c volatility = (-1)%Z) \/
  (volatility <= volThresholdHigh c /\ volThresholdLow c <= volatility /\
   signalStraddle c volatility = 0%Z).
Proof.
  unfold signalStraddle, Rgtb. rcases;
    [left | right; left | right; right]; repeat split; auto; lra.
Qed.

Lemma signalStrangle_cases c volatility :
  (volatility > volThresholdHighStrangle c /\ signalStrangle c volatility = 1%Z) \/
  (volatility <= volThresholdHighStrangle c /\
   volatility < volThresholdLowStrangle c /\
   signalStrangle c volatility = (-1)%Z) \/
  (volatility <= volThresholdHighStrangle c /\
   volThresholdLowStrangle c <= volatility /\
   signalStrangle c volatility = 0%Z).
Proof.
  unfold signalStrangle, Rgtb. rcases;
    [left | right; left | right; right]; repeat split; auto; lra.
Qed.

(** The signal table for any configuration whose low thresholds do not exceed
    the high ones. *)
Lemma signal_table (c : Config) (shortMA longMA volatility : R) :
  volThresholdLow c <= volThresholdHigh c ->
  volThresholdLowStrangle c <= volThresholdHighStrangle c ->
  (signalStraddle c volatility = 1%Z <-> volatility > volThresholdHigh c) /\
  (signalStraddle c volatility = (-1)%Z <-> volatility < volThresholdLow c) /\
  (signalStraddle c volatility = 0%Z <->
     ~ volatility > volThresholdHigh c /\ ~ volatility < volThresholdLow c) /\
  (signalStrangle c volatility = 1%Z <-> volatility > volThresholdHighStrangle c) /\
  (signalStrangle c volatility = (-1)%Z <-> volatility < volThresholdLowStrangle c) /\
  (signalStrangle c volatility = 0%Z <->
     ~ volatility > volThresholdHighStrangle c /\
     ~ volatility < volThresholdLowStrangle c) /\
  (signalBull shortMA longMA = 1%Z <-> shortMA > longMA) /\
  (signalBull shortMA longMA = (-1)%Z <-> ~ shortMA > longMA) /\
  (signalBear shortMA longMA = 1%Z <-> shortMA < longMA) /\
  (signalBear shortMA longMA = (-1)%Z <-> ~ shortMA < longMA) /\
  (signalButterfly c volatility = 1%Z <-> volatility < volThresholdLow c) /\
  (signalButterfly c volatility = (-1)%Z <-> ~ volatility < volThresholdLow c) /\
  signalBull shortMA longMA <> 0%Z /\
  signalBear shortMA longMA <> 0%Z /\
  signalButterfly c volatility <> 0%Z.
Proof.
  intros Hs Hg.
  destruct (signalStraddle_cases c volatility) as [[? E1]|[(? & ? & E1)|(? & ? & E1)]];
  destruct (signalStrangle_cases c volatility) as [[? E2]|[(? & ? & E2)|(? & ? & E2)]];
  destruct (signalBull_cases shortMA longMA) as [[? E3]|[? E3]];
  destruct (signalBear_cases shortMA longMA) as [[? E4]|[? E4]];
  destruct (signalButterfly_cases c volatility) as [[? E5]|[? E5]];
  rewrite E1, E2, E3, E4, E5;
  repeat split; intros; try discriminate; try lra; try reflexivity;
    try (exfalso; lra);
    match goal with H : _ /\ _ |- _ => destruct H; exfalso; lra end.
Qed.

(** C8. With the thresholds the program is configured with, for every
    indicator snapshot: the straddle signal is Enter (+1) iff the volatility
    exceeds the high threshold, Exit (-1) iff it is below the low threshold,
    and Hold (0) otherwise, the strangle likewise with its own thresholds;
    the bull spread signal is Enter iff shortMA > longMA and Exit otherwise;
    the bear spread signal is Enter iff shortMA < longMA and Exit otherwise;
    the butterfly signal is Enter iff the volatility is below the low
    threshold and Exit otherwise; the last three are never Hold. *)
Theorem signal_mapping (shortMA longMA volatility : R) :
  (signalStraddle main_config volatility = 1%Z <-> volatility > 0.01) /\
  (signalStraddle main_config volatility = (-1)%Z <-> volatility < 0.005) /\
  (signalStraddle main_config volatility = 0%Z <->
     ~ volatility > 0.01 /\ ~ volatility < 0.005) /\
  (signalStrangle main_config volatility = 1%Z <-> volatility > 0.012) /\
  (signalStrangle main_config volatility = (-1)%Z <-> volatility < 0.007) /\
  (signalStrangle main_config volatility = 0%Z <->
     ~ volatility > 0.012 /\ ~ volatility < 0.007) /\
  (signalBull shortMA longMA = 1%Z <-> shortMA > longMA) /\
  (signalBull shortMA longMA = (-1)%Z <-> ~ shortMA > longMA) /\
  (signalBear shortMA longMA = 1%Z <-> shortMA < longMA) /\
  (signalBear shortMA longMA = (-1)%Z <-> ~ shortMA < longMA) /\
  (signalButterfly main_config volatility = 1%Z <-> volatility < 0.005) /\
  (signalButterfly main_config volatility = (-1)%Z <-> ~ volatility < 0.005) /\
  signalBull shortMA longMA <> 0%Z /\
  signalBear shortMA longMA <> 0%Z /\
  signalButterfly main_config volatility <> 0%Z.
Proof.
  apply (signal_table main_config shortMA longMA volatility); simpl; lra.
Qed.

(** ** The five blocks are instances of one state machine *)

Lemma exec_lifecycle s c t S_new alpha st :
  exec s c t S_new alpha st = lifecycle s c t S_new alpha st.
Proof.
  destruct s; cbn [exec];
    unfold execStraddle, execStrangle, execBull, execBear, execButterfly,
           lifecycle, event_of; cbn [slot];
    destruct (negb (open (activeTrades st _)) && (alpha =? 1)%Z);
    try reflexivity;
    destruct (open (activeTrades st _)); try reflexivity;
    destruct ((t - entryTick (activeTrades st _) >=? holdPeriod c)%Z || (alpha =? -1)%Z);
    reflexivity.
Qed.

Lemma upd_same {A} (a : nat -> A) k v : upd a k v k = v.
Proof. unfold upd. now rewrite Nat.eqb_refl. Qed.

Lemma upd_other {A} (a : nat -> A) k j v : j <> k -> upd a k v j = a j.
Proof. unfold upd. intros H. apply Nat.eqb_neq in H. now rewrite H. Qed.

Lemma slot_inj s s' : slot s = slot s' -> s = s'.
Proof. destruct s, s'; simpl; intros H; try reflexivity; discriminate. Qed.

(** A block leaves the price history alone. *)
Lemma exec_prices s c t S_new alpha st :
  prices (exec s c t S_new alpha st) = prices st.
Proof.
  rewrite exec_lifecycle. unfold lifecycle.
  destruct (event_of _ _ _ _); reflexivity.
Qed.

(** A block touches no other slot. *)
Lemma exec_frame s c t S_new alpha st k :
  k <> slot s ->
  activeTrades (exec s c t S_new alpha st) k = activeTrades st k /\
  cumulativePnL (exec s c t S_new alpha st) k = cumulativePnL st k.
Proof.
  intros Hk. rewrite exec_lifecycle. unfold lifecycle.
  destruct (event_of _ _ _ _); cbn; rewrite ?upd_other by assumption; auto.
Qed.

(** What a block does to its own slot, by branch. *)
Lemma exec_own s c t S_new alpha st :
  let tr := activeTrades st (slot s) in
  let st' := exec s c t S_new alpha st in
  match event_of c t alpha tr with
  | Opened =>
      activeTrades st' (slot s) = opened_trade s c t S_new tr /\
      cumulativePnL st' (slot s) = cumulativePnL st (slot s)
  | Closed =>
      activeTrades st' (slot s) = closed_trade s t S_new tr /\
      cumulativePnL st' (slot s) =
        cumulativePnL st (slot s) + payoff_of s S_new tr * IZR (volume tr)
  | Idle => st' = st
  end.
Proof.
  cbv zeta. rewrite exec_lifecycle. unfold lifecycle.
  destruct (event_of _ _ _ _); cbn; rewrite ?upd_same; auto.
Qed.

Lemma exec_view_own s c t S_new alpha st :
  view (slot s) (exec s c t S_new alpha st) =
  slot_step s c t S_new alpha (view (slot s) st).
Proof.
  pose proof (exec_own s c t S_new alpha st) as H. cbv zeta in H.
  unfold slot_step, view in *. cbn [fst snd].
  destruct (event_of _ _ _ _).
  - destruct H as [-> ->]. reflexivity.
  - destruct H as [-> ->]. reflexivity.
  - rewrite H. reflexivity.
Qed.

Lemma exec_view_other s c t S_new alpha st k :
  k <> slot s -> view k (exec s c t S_new alpha st) = view k st.
Proof.
  intros Hk. destruct (exec_frame s c t S_new alpha st k Hk) as [Ha Hp].
  unfold view. now rewrite Ha, Hp.
Qed.

Lemma exec_blocks :
  execStraddle = exec Straddle /\ execStrangle = exec Strangle /\
  execBull = exec BullSpread /\ execBear = exec BearSpread /\
  execButterfly = exec ButterflySpread.
Proof. repeat split. Qed.

(** The loop body as the five blocks run in order on this tick's price and
    signals. *)
Lemma tick_unfold c draws t st :
  tick c draws t st =
  let S_new := tick_price c draws t st in
  let st1 := push_price S_new st in
  exec ButterflySpread c t S_new (signal_of ButterflySpread c (prices st1) t)
    (exec BearSpread c t S_new (signal_of BearSpread c (prices st1) t)
      (exec BullSpread c t S_new (signal_of BullSpread c (prices st1) t)
        (exec Strangle c t S_new (signal_of Strangle c (prices st1) t)
          (exec Straddle c t S_new (signal_of Straddle c (prices st1) t) st1)))).
Proof.
  destruct exec_blocks as (<- & <- & <- & <- & <-). reflexivity.
Qed.

(** The slot of strategy [s] after a whole tick is what its own block makes of
    it, with this tick's price and this tick's signal. *)
Lemma tick_view s c draws t st :
  view (slot s) (tick c draws t st) =
  slot_step s c t (tick_price c draws t st)
    (signal_of s c (prices st ++ [tick_price c draws t st]) t)
    (view (slot s) st).
Proof.
  rewrite tick_unfold. cbv zeta.
  set (S_new := tick_price c draws t st).
  change (view (slot s) st) with (view (slot s) (push_price S_new st)).
  change (prices st ++ [S_new]) with (prices (push_price S_new st)).
  generalize (push_price S_new st). intros st1.
  destruct s;
    repeat first
      [ rewrite exec_view_other by (cbn; lia)
      | rewrite exec_view_own ];
    reflexivity.
Qed.

Lemma tick_slot s c draws t st :
  let v := slot_step s c t (tick_price c draws t st)
             (signal_of s c (prices st ++ [tick_price c draws t st]) t)
             (view (slot s) st) in
  activeTrades (tick c draws t st) (slot s) = fst v /\
  cumulativePnL (tick c draws t st) (slot s) = snd v.
Proof.
  cbv zeta. rewrite <- tick_view.
  generalize (tick c draws t st). intros st'. split; reflexivity.
Qed.

Lemma tick_prices c draws t st :
  prices (tick c draws t st) = prices st ++ [tick_price c draws t st].
Proof.
  rewrite tick_unfold. cbv zeta. now rewrite !exec_prices.
Qed.

(** ** The trade lifecycle of one strategy within one tick *)

Lemma event_of_cases c t alpha tr :
  (event_of c t alpha tr = Opened /\ open tr = false /\ alpha = 1%Z) \/
  (event_of c t alpha tr = Closed /\ open tr = true /\
   ((t - entryTick tr >= holdPeriod c)%Z \/ alpha = (-1)%Z)) \/
  (event_of c t alpha tr = Idle /\
   ~ (open tr = false /\ alpha = 1%Z) /\
   ~ (open tr = true /\ ((t - entryTick tr >= holdPeriod c)%Z \/ alpha = (-1)%Z))).
Proof.
  unfold event_of.
  destruct (open tr) eqn:Ho; cbn [negb andb].
  - destruct (t - entryTick tr >=? holdPeriod c)%Z eqn:Hh; cbn [orb].
    + right; left. repeat split. left. apply Z.geb_le in Hh. lia.
    + destruct (alpha =? -1)%Z eqn:Ha.
      * right; left. repeat split. right. now apply Z.eqb_eq.
      * right; right. repeat split.
        -- intros [? _]; discriminate.
        -- intros [_ [H|H]].
           ++ assert ((t - entryTick tr >=? holdPeriod c)%Z = true)
                by (apply Z.geb_le; lia). congruence.
           ++ apply Z.eqb_eq in H. congruence.
  - destruct (alpha =? 1)%Z eqn:Ha.
    + left. repeat split. now apply Z.eqb_eq.
    + right; right. repeat split.
      * intros [_ H]. apply Z.eqb_eq in H. congruence.
      * intros [? _]; discriminate.
Qed.

(** C4. At every tick and for every strategy the lifecycle step follows the
    priority order: Flat with an Enter signal opens a trade recording the
    tick, the settlement price, the strategy's strikes and volume 10, and
    leaves the total alone (so a trade opened at a tick is still open when the
    tick ends); Open with the holding period elapsed or an Exit signal closes
    the trade and adds payoff times volume to the strategy's total; in every
    other case trade and total are unchanged. *)
Theorem trade_lifecycle (s : Strategy) (c : Config) (draws : Z -> R) (t : Z)
    (st : SimState) :
  let S_new := tick_price c draws t st in
  let alpha := signal_of s c (prices st ++ [S_new]) t in
  let tr := activeTrades st (slot s) in
  let st' := tick c draws t st in
  let tr' := activeTrades st' (slot s) in
  (open tr = false /\ alpha = 1%Z ->
     open tr' = true /\ entryTick tr' = t /\ entryPrice tr' = S_new /\
     volume tr' = 10%Z /\
     match s with
     | Straddle => strike1 tr' = S_new
     | Strangle | BullSpread =>
         strike1 tr' = S_new * (1 - delta c) /\ strike2 tr' = S_new * (1 + delta c)
     | BearSpread =>
         strike1 tr' = S_new * (1 + delta c) /\ strike2 tr' = S_new * (1 - delta c)
     | ButterflySpread =>
         strike1 tr' = S_new * (1 - delta c) /\ strike2 tr' = S_new /\
         strike3 tr' = S_new * (1 + delta c)
     end /\
     cumulativePnL st' (slot s) = cumulativePnL st (slot s)) /\
  (open tr = true /\ ((t - entryTick tr >= holdPeriod c)%Z \/ alpha = (-1)%Z) ->
     open tr' = false /\
     cumulativePnL st' (slot s) =
       cumulativePnL st (slot s) +
       match s with
       | Straddle => straddlePayoff S_new (strike1 tr)
       | Strangle => stranglePayoff S_new (strike1 tr) (strike2 tr)
       | BullSpread => bullSpreadPayoff S_new (strike1 tr) (strike2 tr)
       | BearSpread => bearSpreadPayoff S_new (strike1 tr) (strike2 tr)
       | ButterflySpread =>
           butterflySpreadPayoff S_new (strike1 tr) (strike2 tr) (strike3 tr)
       end * IZR (volume tr)) /\
  (~ (open tr = false /\ alpha = 1%Z) ->
   ~ (open tr = true /\ ((t - entryTick tr >= holdPeriod c)%Z \/ alpha = (-1)%Z)) ->
     tr' = tr /\ cumulativePnL st' (slot s) = cumulativePnL st (slot s)).
Proof.
  cbv zeta.
  pose proof (tick_slot s c draws t st) as V.
  unfold view, slot_step in V. cbn [fst snd] in V.
  set (S_new := tick_price c draws t st) in *.
  set (alpha := signal_of s c (prices st ++ [S_new]) t) in *.
  set (tr := activeTrades st (slot s)) in *.
  destruct (event_of_cases c t alpha tr)
    as [(E & Ho & Ha)|[(E & Ho & Hx)|(E & N1 & N2)]];
    rewrite E in V; cbn [fst snd] in V; destruct V as [Vt Vp]; rewrite Vt, Vp.
  - split; [|split].
    + intros _. destruct s; cbn; repeat split; reflexivity.
    + intros [Ho' _]. congruence.
    + intros N. tauto.
  - split; [|split].
    + intros [Ho' _]. congruence.
    + intros _. split; [reflexivity|]. destruct s; reflexivity.
    + intros _ N. tauto.
  - split; [|split].
    + intros H. tauto.
    + intros H. tauto.
    + intros _ _. split; reflexivity.
Qed.

(** ** Price path *)

Lemma init_prices c junk : prices (init c junk) = [S0 c].
Proof. reflexivity. Qed.

Lemma run_prices_length c junk draws n :
  length (prices (run c junk draws n)) = S n.
Proof.
  induction n as [|n IH]; [reflexivity|].
  rewrite run_S, tick_prices, length_app, IH. simpl. lia.
Qed.

Lemma nextPrice_nonneg c S_prev Z : 0 <= S_prev -> 0 <= nextPrice c S_prev Z.
Proof.
  intros H. unfold nextPrice. apply Rmult_le_pos; [assumption | left; apply exp_pos].
Qed.

Lemma last_nonneg (l : list R) : Forall (fun p => 0 <= p) l -> 0 <= last l 0.
Proof.
  induction 1 as [|x l Hx Hl IH]; [cbn; lra|].
  destruct l; [exact Hx | exact IH].
Qed.

Lemma run_prices_nonneg c junk draws n :
  0 <= S0 c -> Forall (fun p => 0 <= p) (prices (run c junk draws n)).
Proof.
  intros H0. induction n as [|n IH].
  - cbn. constructor; [assumption | constructor].
  - rewrite run_S, tick_prices. apply Forall_app. split; [assumption|].
    constructor; [|constructor]. unfold tick_price. apply nextPrice_nonneg.
    now apply last_nonneg.
Qed.

Lemma at_index_nonneg (l : list R) (i : Z) :
  Forall (fun p => 0 <= p) l -> (0 <= i < Z.of_nat (length l))%Z ->
  0 <= at_index l i.
Proof.
  intros H Hi. rewrite Forall_forall in H. apply H. apply nth_In. lia.
Qed.

(** ** Price path in double arithmetic *)

Lemma binary_round_aux_not_negative mx ex lx :
  not_negative (binary_round_aux dprec demax false mx ex lx).
Proof.
  unfold not_negative, binary_round_aux.
  destruct (shr_fexp dprec demax mx ex lx) as [mrs' e'].
  destruct (shr_fexp dprec demax _ e' loc_Exact) as [mrs'' e''].
  destruct (shr_m mrs''); try reflexivity.
  destruct (Z.leb e'' (Z.sub demax dprec)); reflexivity.
Qed.

Lemma not_negative_cases (x : double) :
  not_negative x ->
  x = S754_nan \/ (exists s, x = S754_zero s) \/ x = S754_infinity false \/
  exists m e, x = S754_finite false m e.
Proof.
  unfold not_negative.
  destruct x as [s|[|]| |[|] m e]; cbn; intros H; try discriminate.
  - right; left. now exists s.
  - right; right; left. reflexivity.
  - left. reflexivity.
  - right; right; right. now exists m, e.
Qed.

Lemma dmul_not_negative (x y : double) :
  not_negative x -> not_negative y -> not_negative (dmul x y).
Proof.
  intros Hx Hy.
  destruct (not_negative_cases x Hx) as [->|[[sx ->]|[->|(mx & ex & ->)]]];
  destruct (not_negative_cases y Hy) as [->|[[sy ->]|[->|(my & ey & ->)]]];
    try reflexivity;
    try (destruct sx; reflexivity); try (destruct sy; reflexivity);
    try (destruct sx, sy; reflexivity).
  apply binary_round_aux_not_negative.
Qed.

Lemma nextPrice_double_not_negative exp_impl S_prev mu sigma dt Z :
  (forall x, not_negative (exp_impl x)) -> not_negative S_prev ->
  not_negative (nextPrice_double exp_impl S_prev mu sigma dt Z).
Proof. intros He Hs. unfold nextPrice_double. now apply dmul_not_negative. Qed.

Lemma last_Forall (P : double -> Prop) (l : list double) (d : double) :
  P d -> Forall P l -> P (last l d).
Proof.
  intros Hd H. induction H as [|x l Hx Hl IH]; [assumption|].
  destruct l; [assumption | exact IH].
Qed.

Lemma price_path_double_not_negative exp_impl S0 mu sigma dt draws n :
  (forall x, not_negative (exp_impl x)) -> not_negative S0 ->
  Forall not_negative (price_path_double exp_impl S0 mu sigma dt draws n).
Proof.
  intros He H0. induction n as [|n IH].
  - repeat constructor. assumption.
  - cbn [price_path_double]. apply Forall_app. split; [assumption|].
    constructor; [|constructor].
    apply nextPrice_double_not_negative; [assumption|].
    now apply last_Forall.
Qed.

(** C5 (amended). In double arithmetic the price step is the rounded product
    of the previous price and [exp] of the rounded exponent.  Whatever drift,
    volatility, time step and draw, and for every implementation of [exp]
    that returns no negative value, a previous price that is not negative
    gives a new price that is not negative; hence, for an initial price that
    is not negative, no price of the path is negative, after any number of
    ticks.  (Zero is reached by underflow; strict positivity is not kept.) *)
Theorem price_path_never_negative (exp_impl : double -> double)
    (S0 mu sigma dt : double)
    (Hexp : forall x, not_negative (exp_impl x)) (HS0 : not_negative S0) :
  (forall S_prev Z,
     nextPrice_double exp_impl S_prev mu sigma dt Z =
     dmul S_prev
       (exp_impl
          (dadd (dmul (dsub mu (dmul (dmul dhalf sigma) sigma)) dt)
                (dmul (dmul sigma (dsqrt dt)) Z)))) /\
  (forall S_prev Z,
     not_negative S_prev ->
     not_negative (nextPrice_double exp_impl S_prev mu sigma dt Z)) /\
  (forall draws n,
     Forall not_negative (price_path_double exp_impl S0 mu sigma dt draws n)).
Proof.
  split; [reflexivity|]. split.
  - intros. now apply nextPrice_double_not_negative.
  - intros. now apply price_path_double_not_negative.
Qed.

Lemma exp_sample_not_negative (x : double) : not_negative (exp_sample x).
Proof. unfold exp_sample. destruct (SFeqb x (double_of_Z (-1))); reflexivity. Qed.

Lemma price_path_never_negative_witness :
  ((forall x, not_negative (exp_sample x)) /\ not_negative (double_of_Z 100)) /\
  Forall not_negative
    (price_path_double exp_sample (double_of_Z 100) (double_of_Z (-1)) dzero
       (double_of_Z 1) (fun _ => dzero) 3).
Proof.
  assert (H : (forall x, not_negative (exp_sample x)) /\
              not_negative (double_of_Z 100))
    by (split; [exact exp_sample_not_negative | reflexivity]).
  split; [exact H|]. destruct H as [H1 H2].
  exact (proj2 (proj2 (price_path_never_negative exp_sample (double_of_Z 100)
                         (double_of_Z (-1)) dzero (double_of_Z 1) H1 H2))
           (fun _ => dzero) 3%nat).
Defined.

(** With drift -1, volatility 0 and time step 1 the exponent is -1 at every
    finite draw, so each tick multiplies the price by [exp (-1)]. *)
Lemma decay_step exp_impl (p z : double) :
  is_finite z = true ->
  exp_impl (double_of_Z (-1)) = exp_minus_one ->
  nextPrice_double exp_impl p (double_of_Z (-1)) dzero (double_of_Z 1) z
  = dmul p exp_minus_one.
Proof.
  intros Hz He. unfold nextPrice_double. f_equal. rewrite <- He. f_equal.
  destruct z as [s| | |s m e]; try discriminate; destruct s; reflexivity.
Qed.

Lemma decay_path exp_impl draws n :
  (forall t, is_finite (draws t) = true) ->
  exp_impl (double_of_Z (-1)) = exp_minus_one ->
  last (price_path_double exp_impl (double_of_Z 100) (double_of_Z (-1)) dzero
          (double_of_Z 1) draws n) (double_of_Z 100)
  = Nat.iter n (fun p => dmul p exp_minus_one) (double_of_Z 100).
Proof.
  intros Hd He. induction n as [|n IH]; [reflexivity|].
  cbn [price_path_double Nat.iter]. rewrite last_last, IH.
  now apply decay_step.
Qed.

(** C5 as stated fails.  The configuration with initial price 100, drift -1,
    volatility 0 and time step 1 is valid; for every stream of finite draws
    and every [exp] that returns the double nearest to [exp (-1)] at [-1],
    the price after 749 ticks is the smallest positive double and the price
    after 750 ticks is 0: the product underflows. *)
Lemma price_underflow_counterexample :
  SFltb dzero (double_of_Z 100) = true /\
  SFleb dzero dzero = true /\
  SFltb dzero (double_of_Z 1) = true /\
  (forall (exp_impl : double -> double) (draws : nat -> double),
     (forall t, is_finite (draws t) = true) ->
     exp_impl (double_of_Z (-1)) = exp_minus_one ->
     last (price_path_double exp_impl (double_of_Z 100) (double_of_Z (-1)) dzero
             (double_of_Z 1) draws 749) (double_of_Z 100)
       = S754_finite false 1 (-1074) /\
     last (price_path_double exp_impl (double_of_Z 100) (double_of_Z (-1)) dzero
             (double_of_Z 1) draws 750) (double_of_Z 100)
       = S754_zero false).
Proof.
  repeat split; try reflexivity.
  - rewrite decay_path by assumption. vm_compute. reflexivity.
  - rewrite decay_path by assumption. vm_compute. reflexivity.
Qed.

(** ** Moving average *)

Lemma skipn_nth_cons (l : list R) (lo : nat) :
  (lo < length l)%nat -> skipn lo l = nth lo l 0 :: skipn (S lo) l.
Proof.
  revert lo. induction l as [|x l IH]; intros lo H.
  - simpl in H. lia.
  - destruct lo as [|lo]; [reflexivity|].
    simpl in H. change (skipn (S lo) (x :: l)) with (skipn lo l).
    rewrite IH by lia. reflexivity.
Qed.

Lemma slice_S (l : list R) (lo n : nat) :
  (lo < length l)%nat -> slice l lo (S n) = nth lo l 0 :: slice l (S lo) n.
Proof. intros H. unfold slice. now rewrite skipn_nth_cons by assumption. Qed.

Lemma slice_length (l : list R) (lo n : nat) :
  (lo + n <= length l)%nat -> length (slice l lo n) = n.
Proof. intros H. unfold slice. rewrite length_firstn, length_skipn. lia. Qed.

Lemma sum_loop (prices : list R) (n : nat) :
  forall (i : Z) (a : R),
    (0 <= i)%Z -> (Z.to_nat i + n <= length prices)%nat ->
    for_from n i (fun i sum => sum + at_index prices i) a
    = a + Rsum (slice prices (Z.to_nat i) n).
Proof.
  induction n as [|n IH]; intros i a Hi Hn.
  - unfold slice. simpl. lra.
  - cbn [for_from]. rewrite IH by lia.
    rewrite slice_S by lia.
    replace (Z.to_nat (i + 1)) with (S (Z.to_nat i)) by lia.
    unfold at_index. simpl. lra.
Qed.

Lemma computeMA_window (prices : list R) (t w : Z) :
  (1 <= w)%Z -> (w - 1 <= t < Z.of_nat (length prices))%Z ->
  computeMA prices t w = mean (slice prices (Z.to_nat (t - w + 1)) (Z.to_nat w)).
Proof.
  intros Hw Ht. unfold computeMA.
  destruct (Z.ltb_spec t (w - 1)); [lia|].
  unfold for_range. replace (t - (t - w + 1) + 1)%Z with w by lia.
  rewrite sum_loop by lia.
  unfold mean. rewrite slice_length by lia.
  rewrite INR_IZR_INZ, Z2Nat.id by lia. f_equal. lra.
Qed.

Lemma computeMA_warmup (prices : list R) (t w : Z) :
  (t < w - 1)%Z -> computeMA prices t w = nth (Z.to_nat t) prices 0.
Proof.
  intros Hlt. unfold computeMA.
  destruct (Z.ltb_spec t (w - 1)); [reflexivity | lia].
Qed.

(** C9. For a window of at least one tick and a tick inside the history,
    [computeMA] is the arithmetic mean of the [window] most recent prices up
    to and including the tick once that many exist, and the price of the tick
    itself before; on the history [100] with window 5 it is 100. *)
Theorem computeMA_spec (prices : list R) (t w : Z)
    (Hw : (1 <= w)%Z) (Ht : (0 <= t < Z.of_nat (length prices))%Z) :
  ((w - 1 <= t)%Z ->
     computeMA prices t w =
     mean (slice prices (Z.to_nat (t - w + 1)) (Z.to_nat w))) /\
  ((t < w - 1)%Z -> computeMA prices t w = nth (Z.to_nat t) prices 0) /\
  computeMA [100] 0 5 = 100.
Proof.
  split; [|split].
  - intros Hge. apply computeMA_window; lia.
  - intros Hlt. now apply computeMA_warmup.
  - reflexivity.
Qed.

Lemma computeMA_spec_witness :
  ((1 <= 2)%Z /\ (0 <= 2 < Z.of_nat (length [100; 102; 104]))%Z) /\
  computeMA [100; 102; 104] 2 2 = 103.
Proof.
  assert (H : (1 <= 2)%Z /\ (0 <= 2 < Z.of_nat (length [100; 102; 104]))%Z)
    by (cbn; lia).
  split; [exact H|].
  destruct H as [H1 H2].
  rewrite (proj1 (computeMA_spec [100; 102; 104] 2 2 H1 H2)) by lia.
  change (Z.to_nat (2 - 2 + 1)) with 1%nat. change (Z.to_nat 2) with 2%nat.
  unfold mean, slice. cbn. lra.
Defined.

(** ** Realized volatility *)

Lemma returns_loop (prices : list R) (n : nat) :
  forall (i : Z) (acc : list R),
    (1 <= i)%Z -> (Z.to_nat i + n <= length prices)%nat ->
    for_from n i
      (fun i returns =>
         if (i =? 0)%Z then returns
         else returns ++ [ln (at_index prices i / at_index prices (i - 1))])
      acc
    = acc ++ log_returns (slice prices (Z.to_nat (i - 1)) (S n)).
Proof.
  induction n as [|n IH]; intros i acc Hi Hn.
  - cbn [for_from]. rewrite slice_S by lia. unfold slice. cbn.
    now rewrite app_nil_r.
  - cbn [for_from]. destruct (Z.eqb_spec i 0); [lia|].
    rewrite IH by lia.
    rewrite (slice_S prices (Z.to_nat (i - 1)) (S n)) by lia.
    replace (i + 1 - 1)%Z with i by lia.
    replace (S (Z.to_nat (i - 1))) with (Z.to_nat i) by lia.
    rewrite <- app_assoc. f_equal.
    generalize (slice_S prices (Z.to_nat i) n ltac:(lia)).
    destruct (slice prices (Z.to_nat i) (S n)) as [|q tl]; [discriminate|].
    intros [= -> _]. reflexivity.
Qed.

Lemma log_returns_length (l : list R) : length (log_returns l) = pred (length l).
Proof.
  induction l as [|p l IH]; [reflexivity|].
  destruct l as [|q l]; [reflexivity|].
  change (log_returns (p :: q :: l)) with (ln (q / p) :: log_returns (q :: l)).
  cbn [length]. rewrite IH. reflexivity.
Qed.

Lemma fold_sum (l : list R) :
  forall a, fold_left (fun mean r => mean + r) l a = a + Rsum l.
Proof.
  induction l as [|x l IH]; intros a; cbn [fold_left]; [cbn; lra|].
  rewrite IH. change (Rsum (x :: l)) with (x + Rsum l). lra.
Qed.

Lemma fold_sq (m : R) (l : list R) :
  forall a,
    fold_left (fun variance r => variance + (r - m) * (r - m)) l a
    = a + Rsum (map (fun r => (r - m) * (r - m)) l).
Proof.
  induction l as [|x l IH]; intros a; cbn [fold_left map]; [cbn; lra|].
  rewrite IH.
  match goal with
  | |- context [Rsum (?y :: ?tl)] => change (Rsum (y :: tl)) with (y + Rsum tl)
  end.
  lra.
Qed.

(** Past the warm-up the function is the population standard deviation of
    the [window] log-returns ending at the tick, which span [window + 1]
    prices. *)
Lemma computeVolatility_eq (prices : list R) (t w : Z) :
  (1 <= w)%Z -> (w <= t < Z.of_nat (length prices))%Z ->
  computeVolatility prices t w =
  pop_stddev (log_returns (slice prices (Z.to_nat (t - w)) (S (Z.to_nat w)))).
Proof.
  intros Hw Ht. unfold computeVolatility.
  destruct (Z.ltb_spec t w); [lia|].
  unfold collect_returns, for_range.
  replace (t - (t - w + 1) + 1)%Z with w by lia.
  rewrite returns_loop by lia. cbn [app].
  replace (t - w + 1 - 1)%Z with (t - w)%Z by lia.
  set (rs := log_returns _).
  rewrite fold_sum, fold_sq. unfold pop_stddev, mean.
  rewrite !Rplus_0_l. reflexivity.
Qed.

Lemma log_returns_const (p : R) (l : list R) :
  p <> 0 -> Forall (fun q => q = p) l -> Forall (fun r => r = 0) (log_returns l).
Proof.
  intros Hp. induction l as [|a [|b l] IH]; intros H; cbn [log_returns];
    try constructor.
  - inversion H as [|? ? Ha H']; subst. inversion H' as [|? ? Hb _]; subst.
    replace (p / p) with 1 by (field; assumption). apply ln_1.
  - apply IH. now inversion H.
Qed.

Lemma Rsum_zero (l : list R) : Forall (fun r => r = 0) l -> Rsum l = 0.
Proof.
  induction 1 as [|x l Hx _ IH]; [reflexivity|].
  change (Rsum (x :: l)) with (x + Rsum l). rewrite Hx, IH. lra.
Qed.

Lemma pop_stddev_zero (l : list R) :
  Forall (fun r => r = 0) l -> pop_stddev l = 0.
Proof.
  intros H. unfold pop_stddev, mean. rewrite (Rsum_zero l H).
  replace (Rsum _) with 0.
  - unfold Rdiv. rewrite Rmult_0_l. apply sqrt_0.
  - symmetry. apply Rsum_zero. apply Forall_map.
    eapply Forall_impl; [|exact H]. cbn. intros r ->.
    unfold Rdiv. rewrite Rmult_0_l. lra.
Qed.

(** C1 (amended). For a window of at least one tick and a tick inside the
    history, [computeVolatility] is 0 when the tick is smaller than the window
    (at most [window] observations); otherwise it is the population standard
    deviation (divisor: the number of returns) of the [window] log-returns
    [ln (price_i / price_(i-1))], [i] from [tick - window + 1] to [tick], which
    span the [window + 1] most recent prices; when these [window + 1] prices
    are one and the same positive number the result is 0. *)
Theorem computeVolatility_spec (prices : list R) (t w : Z)
    (Hw : (1 <= w)%Z) (Ht : (0 <= t < Z.of_nat (length prices))%Z) :
  ((t < w)%Z -> computeVolatility prices t w = 0) /\
  ((w <= t)%Z ->
     let returns :=
       log_returns (slice prices (Z.to_nat (t - w)) (S (Z.to_nat w))) in
     length returns = Z.to_nat w /\
     computeVolatility prices t w = pop_stddev returns) /\
  ((w <= t)%Z ->
     forall p, 0 < p ->
       Forall (fun q => q = p) (slice prices (Z.to_nat (t - w)) (S (Z.to_nat w))) ->
       computeVolatility prices t w = 0).
Proof.
  split; [|split].
  - intros Hlt. unfold computeVolatility.
    destruct (Z.ltb_spec t w); [reflexivity | lia].
  - intros Hge. cbv zeta. split.
    + rewrite log_returns_length, slice_length by lia. reflexivity.
    + apply computeVolatility_eq; lia.
  - intros Hge p Hp Hall.
    rewrite computeVolatility_eq by lia.
    apply pop_stddev_zero. apply (log_returns_const p); [lra | assumption].
Qed.

Lemma computeVolatility_spec_witness :
  ((1 <= 2)%Z /\ (0 <= 2 < Z.of_nat (length [7; 7; 7]))%Z) /\
  computeVolatility [7; 7; 7] 2 2 = 0.
Proof.
  assert (H : (1 <= 2)%Z /\ (0 <= 2 < Z.of_nat (length [7; 7; 7]))%Z)
    by (cbn; lia).
  split; [exact H|].
  destruct H as [H1 H2].
  apply (proj2 (proj2 (computeVolatility_spec [7; 7; 7] 2 2 H1 H2))
           ltac:(lia) 7 ltac:(lra)).
  change (Z.to_nat (2 - 2)) with 0%nat. change (Z.to_nat 2) with 2%nat.
  unfold slice. cbn. repeat constructor.
Defined.

(** C1 as stated fails.  At tick 2 with window 2 the two most recent prices of
    [1; 2; 2] are identical, and a standard deviation over them (one return)
    would be 0; the function spans three prices and returns [ln 2 / 2].  At
    tick 1 with window 2 there are two observations, so the tick is not
    smaller than [window - 1], and yet the guard returns 0. *)
Lemma computeVolatility_counterexample :
  slice [1; 2; 2] 1 2 = [2; 2] /\
  pop_stddev (log_returns (slice [1; 2; 2] 1 2)) = 0 /\
  computeVolatility [1; 2; 2] 2 2 = ln 2 / 2 /\
  0 < ln 2 / 2 /\
  (1 <? 2 - 1)%Z = false /\
  computeVolatility [100; 200] 1 2 = 0.
Proof.
  assert (L2 : 0 < ln 2) by (pose proof ln_lt_2; lra).
  repeat split; try reflexivity.
  - apply pop_stddev_zero. apply (log_returns_const 2); [lra|].
    unfold slice. cbn. repeat constructor.
  - rewrite computeVolatility_eq by (cbn; lia).
    change (Z.to_nat (2 - 2)) with 0%nat. change (Z.to_nat 2) with 2%nat.
    unfold slice. cbn [skipn firstn log_returns].
    replace (2 / 1) with 2 by lra. replace (2 / 2) with 1 by lra.
    rewrite ln_1. unfold pop_stddev, mean. cbn [Rsum fold_right map length INR].
    set (x := ln 2) in *.
    replace (_ / (1 + 1)) with ((x / 2) * (x / 2)) by field.
    apply sqrt_square. lra.
  - lra.
Qed.

(** ** Events of a tick and their effect on a strategy's slot *)

Lemma opened_trade_open s c t S tr : open (opened_trade s c t S tr) = true.
Proof. destruct s; reflexivity. Qed.

Lemma closed_trade_open s t S tr : open (closed_trade s t S tr) = false.
Proof. reflexivity. Qed.

Lemma tick_event_effect s c draws t st :
  let tr := activeTrades st (slot s) in
  let S_new := tick_price c draws t st in
  let st' := tick c draws t st in
  match tick_event s c draws t st with
  | Opened =>
      open tr = false /\
      activeTrades st' (slot s) = opened_trade s c t S_new tr /\
      cumulativePnL st' (slot s) = cumulativePnL st (slot s)
  | Closed =>
      open tr = true /\
      activeTrades st' (slot s) = closed_trade s t S_new tr /\
      cumulativePnL st' (slot s) =
        cumulativePnL st (slot s) + payoff_of s S_new tr * IZR (volume tr)
  | Idle =>
      activeTrades st' (slot s) = tr /\
      cumulativePnL st' (slot s) = cumulativePnL st (slot s)
  end.
Proof.
  cbv zeta. pose proof (tick_slot s c draws t st) as V.
  unfold view, slot_step in V. cbn [fst snd] in V.
  unfold tick_event.
  destruct (event_of_cases c t
              (signal_of s c (prices st ++ [tick_price c draws t st]) t)
              (activeTrades st (slot s)))
    as [(E & Ho & _)|[(E & Ho & _)|(E & _)]];
    rewrite E in *; cbn [fst snd] in V; destruct V as [Vt Vp]; auto.
Qed.

Lemma tick_open_after s c draws t st :
  open (activeTrades (tick c draws t st) (slot s)) =
  match tick_event s c draws t st with
  | Opened => true
  | Closed => false
  | Idle => open (activeTrades st (slot s))
  end.
Proof.
  pose proof (tick_event_effect s c draws t st) as H. cbv zeta in H.
  destruct (tick_event s c draws t st).
  - destruct H as (_ & -> & _). apply opened_trade_open.
  - destruct H as (_ & -> & _). reflexivity.
  - destruct H as (-> & _). reflexivity.
Qed.

Lemma tick_event_opened_signal s c draws t st :
  tick_event s c draws t st = Opened ->
  signal_of s c (prices st ++ [tick_price c draws t st]) t = 1%Z.
Proof.
  unfold tick_event. intros E.
  destruct (event_of_cases c t
              (signal_of s c (prices st ++ [tick_price c draws t st]) t)
              (activeTrades st (slot s)))
    as [(_ & _ & Ha)|[(E' & _)|(E' & _)]]; [assumption | congruence | congruence].
Qed.

(** A slot that is flat before a tick and open after it was opened by the
    tick. *)
Lemma flat_then_open_is_opened s c draws t st :
  open (activeTrades st (slot s)) = false ->
  open (activeTrades (tick c draws t st) (slot s)) = true ->
  tick_event s c draws t st = Opened.
Proof.
  intros Hb Ha. rewrite tick_open_after in Ha.
  destruct (tick_event s c draws t st); congruence.
Qed.

Lemma init_flat c junk s : open (activeTrades (init c junk) (slot s)) = false.
Proof. destruct s; reflexivity. Qed.

Lemma init_pnl c junk k : cumulativePnL (init c junk) k = 0.
Proof. reflexivity. Qed.

(** ** Bull and bear spread never enter together *)

(** C10. The bull and bear signals are each +1 or -1, never both +1, and both
    -1 exactly when the two moving averages are equal; hence no tick takes the
    slots of both strategies from flat to open. *)
Theorem bull_bear_exclusive :
  (forall shortMA longMA,
     (signalBull shortMA longMA = 1%Z \/ signalBull shortMA longMA = (-1)%Z) /\
     (signalBear shortMA longMA = 1%Z \/ signalBear shortMA longMA = (-1)%Z) /\
     ~ (signalBull shortMA longMA = 1%Z /\ signalBear shortMA longMA = 1%Z) /\
     (signalBull shortMA longMA = (-1)%Z /\ signalBear shortMA longMA = (-1)%Z
      <-> shortMA = longMA)) /\
  (forall c draws t st,
     ~ ((open (activeTrades st 3) = false /\
         open (activeTrades (tick c draws t st) 3) = true) /\
        (open (activeTrades st 4) = false /\
         open (activeTrades (tick c draws t st) 4) = true))).
Proof.
  split.
  - intros shortMA longMA.
    destruct (signalBull_cases shortMA longMA) as [[H1 E1]|[H1 E1]];
    destruct (signalBear_cases shortMA longMA) as [[H2 E2]|[H2 E2]];
    rewrite E1, E2; repeat split; auto;
      try (intros [? ?]; try discriminate; lra);
      try (intros; exfalso; lra); try discriminate; try lra.
  - intros c draws t st [[B0 B1] [R0 R1]].
    pose proof (flat_then_open_is_opened BullSpread c draws t st B0 B1) as EB.
    pose proof (flat_then_open_is_opened BearSpread c draws t st R0 R1) as ER.
    apply tick_event_opened_signal in EB, ER. cbn [signal_of] in EB, ER.
    destruct (signalBull_cases
                (computeMA (prices st ++ [tick_price c draws t st]) t (shortWindow c))
                (computeMA (prices st ++ [tick_price c draws t st]) t (longWindow c)))
      as [[H1 E1]|[H1 E1]]; [|congruence].
    destruct (signalBear_cases
                (computeMA (prices st ++ [tick_price c draws t st]) t (shortWindow c))
                (computeMA (prices st ++ [tick_price c draws t st]) t (longWindow c)))
      as [[H2 E2]|[H2 E2]]; [lra | congruence].
Qed.

(** ** Opens and closes balance *)

Lemma count_events_S e s c junk draws n :
  count_events e s c junk draws (S n) =
  (count_events e s c junk draws n +
   (if Event_eqb (tick_event s c draws (Z.of_nat (S n)) (run c junk draws n)) e
    then 1 else 0))%nat.
Proof. reflexivity. Qed.

(** C7. Each strategy has one slot, whose flag says whether its trade is open;
    a trade is opened only from a flat slot; and after any number of ticks the
    number of opens is the number of closes, plus one exactly when the slot is
    open, so the number of trades open at once never exceeds one. *)
Theorem ledger_balance (s : Strategy) (c : Config) (junk : nat -> Trade)
    (draws : Z -> R) (n : nat) :
  (tick_event s c draws (Z.of_nat (S n)) (run c junk draws n) = Opened <->
     open (activeTrades (run c junk draws n) (slot s)) = false /\
     open (activeTrades (run c junk draws (S n)) (slot s)) = true) /\
  (tick_event s c draws (Z.of_nat (S n)) (run c junk draws n) = Closed <->
     open (activeTrades (run c junk draws n) (slot s)) = true /\
     open (activeTrades (run c junk draws (S n)) (slot s)) = false) /\
  count_events Opened s c junk draws n =
    (count_events Closed s c junk draws n +
     (if open (activeTrades (run c junk draws n) (slot s)) then 1 else 0))%nat /\
  (count_events Opened s c junk draws n
   - count_events Closed s c junk draws n <= 1)%nat.
Proof.
  assert (Hev : forall k,
    match tick_event s c draws (Z.of_nat (S k)) (run c junk draws k) with
    | Opened => open (activeTrades (run c junk draws k) (slot s)) = false /\
                open (activeTrades (run c junk draws (S k)) (slot s)) = true
    | Closed => open (activeTrades (run c junk draws k) (slot s)) = true /\
                open (activeTrades (run c junk draws (S k)) (slot s)) = false
    | Idle => open (activeTrades (run c junk draws (S k)) (slot s)) =
              open (activeTrades (run c junk draws k) (slot s))
    end).
  { intros k. rewrite run_S.
    pose proof (tick_event_effect s c draws (Z.of_nat (S k)) (run c junk draws k)) as H.
    cbv zeta in H.
    destruct (tick_event s c draws (Z.of_nat (S k)) (run c junk draws k)).
    - destruct H as (Hb & -> & _). split; [assumption | apply opened_trade_open].
    - destruct H as (Hb & -> & _). split; [assumption | reflexivity].
    - destruct H as (-> & _). reflexivity. }
  assert (Hbal : forall k,
    count_events Opened s c junk draws k =
    (count_events Closed s c junk draws k +
     (if open (activeTrades (run c junk draws k) (slot s)) then 1 else 0))%nat).
  { induction k as [|k IH].
    - cbn [count_events]. change (run c junk draws 0) with (init c junk).
      now rewrite init_flat.
    - rewrite !count_events_S, IH. specialize (Hev k).
      destruct (tick_event s c draws (Z.of_nat (S k)) (run c junk draws k));
        cbn [Event_eqb].
      + destruct Hev as [-> ->]. lia.
      + destruct Hev as [-> ->]. lia.
      + rewrite Hev. lia. }
  split; [|split; [|split]].
  - specialize (Hev n). split.
    + intros E. now rewrite E in Hev.
    + intros [Hb Ha].
      destruct (tick_event s c draws (Z.of_nat (S n)) (run c junk draws n));
        [reflexivity | destruct Hev; congruence | congruence].
  - specialize (Hev n). split.
    + intros E. now rewrite E in Hev.
    + intros [Hb Ha].
      destruct (tick_event s c draws (Z.of_nat (S n)) (run c junk draws n));
        [destruct Hev; congruence | reflexivity | congruence].
  - apply Hbal.
  - rewrite (Hbal n).
    destruct (open (activeTrades (run c junk draws n) (slot s))); lia.
Qed.

(** ** Indicators on a flat price history *)

Lemma Forall_slice (P : R -> Prop) (l : list R) (lo n : nat) :
  Forall P l -> Forall P (slice l lo n).
Proof.
  intros H. unfold slice.
  assert (Hs : Forall P (skipn lo l)).
  { clear n. revert l H. induction lo as [|lo IH]; intros l H; [assumption|].
    destruct l as [|x l]; [constructor|]. cbn. apply IH. now inversion H. }
  revert Hs. generalize (skipn lo l). clear.
  induction n as [|n IH]; intros l H; [constructor|].
  destruct l as [|x l]; [constructor|]. cbn.
  inversion H; subst. constructor; auto.
Qed.

Lemma Rsum_const (p : R) (l : list R) :
  Forall (fun q => q = p) l -> Rsum l = INR (length l) * p.
Proof.
  induction 1 as [|x l Hx _ IH].
  - cbn. lra.
  - change (Rsum (x :: l)) with (x + Rsum l).
    change (length (x :: l)) with (S (length l)).
    rewrite S_INR, IH, Hx. lra.
Qed.

Lemma mean_const (p : R) (l : list R) :
  l <> [] -> Forall (fun q => q = p) l -> mean l = p.
Proof.
  intros Hne H. unfold mean. rewrite (Rsum_const p l H).
  assert (0 < INR (length l)).
  { apply lt_0_INR. destruct l; [congruence | cbn; lia]. }
  field. lra.
Qed.

Lemma Forall_nth_const (p : R) (l : list R) (k : nat) :
  Forall (fun q => q = p) l -> (k < length l)%nat -> nth k l 0 = p.
Proof.
  intros H Hk. rewrite Forall_forall in H. apply H. now apply nth_In.
Qed.

Lemma computeMA_const (p : R) (prices : list R) (t w : Z) :
  Forall (fun q => q = p) prices ->
  (1 <= w)%Z -> (0 <= t < Z.of_nat (length prices))%Z ->
  computeMA prices t w = p.
Proof.
  intros H Hw Ht. destruct (Z.lt_ge_cases t (w - 1)).
  - rewrite computeMA_warmup by assumption. apply Forall_nth_const; [assumption | lia].
  - rewrite computeMA_window by lia. apply mean_const.
    + intros E. apply (f_equal (@length R)) in E.
      rewrite slice_length in E by lia. cbn in E. lia.
    + now apply Forall_slice.
Qed.

Lemma computeVolatility_const (p : R) (prices : list R) (t w : Z) :
  0 < p -> Forall (fun q => q = p) prices ->
  (1 <= w)%Z -> (0 <= t < Z.of_nat (length prices))%Z ->
  computeVolatility prices t w = 0.
Proof.
  intros Hp H Hw Ht. destruct (Z.lt_ge_cases t w).
  - unfold computeVolatility. destruct (Z.ltb_spec t w); [reflexivity | lia].
  - rewrite computeVolatility_eq by lia.
    apply pop_stddev_zero. apply (log_returns_const p); [lra|].
    now apply Forall_slice.
Qed.

(** ** Which branch a block takes *)

Lemma event_of_flat_enter c t tr :
  open tr = false -> event_of c t 1 tr = Opened.
Proof. intros H. unfold event_of. now rewrite H. Qed.

Lemma event_of_flat_other c t alpha tr :
  open tr = false -> alpha <> 1%Z -> event_of c t alpha tr = Idle.
Proof.
  intros H Ha. unfold event_of. rewrite H. cbn.
  destruct (Z.eqb_spec alpha 1); [contradiction | reflexivity].
Qed.

Lemma event_of_open_hold c t alpha tr :
  open tr = true -> (holdPeriod c <= t - entryTick tr)%Z ->
  event_of c t alpha tr = Closed.
Proof.
  intros H Hh. unfold event_of. rewrite H. cbn.
  apply Z.geb_le in Hh. now rewrite Hh.
Qed.

Lemma event_of_open_exit c t tr :
  open tr = true -> event_of c t (-1) tr = Closed.
Proof.
  intros H. unfold event_of. rewrite H. cbn. now rewrite orb_true_r.
Qed.

Lemma event_of_open_idle c t alpha tr :
  open tr = true -> (t - entryTick tr < holdPeriod c)%Z -> alpha <> (-1)%Z ->
  event_of c t alpha tr = Idle.
Proof.
  intros H Hh Ha. unfold event_of. rewrite H. cbn.
  destruct (Z.geb_spec (t - entryTick tr) (holdPeriod c)); [lia|].
  destruct (Z.eqb_spec alpha (-1)); [contradiction | reflexivity].
Qed.

(** ** The calm market: drift 0 and volatility 0 *)

Lemma calm_tick_price draws t st :
  tick_price calm_config draws t st = last (prices st) 0.
Proof.
  unfold tick_price, nextPrice. cbn [mu sigma dt calm_config].
  replace ((0 - 0.5 * 0 * 0) * 1 + 0 * sqrt 1 * draws t) with 0 by ring.
  rewrite exp_0. ring.
Qed.

Lemma last_repeat (p : R) (n : nat) : last (repeat p (S n)) 0 = p.
Proof. cbn [repeat]. rewrite repeat_cons. apply last_last. Qed.

Lemma calm_prices junk draws n :
  prices (run calm_config junk draws n) = repeat 100 (S n).
Proof.
  induction n as [|n IH]; [reflexivity|].
  rewrite run_S, tick_prices, calm_tick_price, IH, last_repeat.
  rewrite <- repeat_cons. reflexivity.
Qed.

Lemma Forall_repeat_eq (p : R) (n : nat) : Forall (fun q => q = p) (repeat p n).
Proof. induction n; constructor; auto. Qed.

(** In the calm market only the butterfly signal is Enter; the other four are
    Exit, at every tick. *)
Lemma calm_signal s junk draws n :
  signal_of s calm_config
    (prices (run calm_config junk draws n)
     ++ [tick_price calm_config draws (Z.of_nat (S n)) (run calm_config junk draws n)])
    (Z.of_nat (S n))
  = match s with ButterflySpread => 1%Z | _ => (-1)%Z end.
Proof.
  rewrite calm_tick_price, calm_prices, last_repeat, <- repeat_cons.
  change (100 :: repeat 100 (S n)) with (repeat 100 (S (S n))).
  assert (HM : forall w, (1 <= w)%Z ->
            computeMA (repeat 100 (S (S n))) (Z.of_nat (S n)) w = 100).
  { intros w Hw. apply computeMA_const; [apply Forall_repeat_eq | lia |].
    rewrite repeat_length. lia. }
  assert (HV : computeVolatility (repeat 100 (S (S n))) (Z.of_nat (S n)) 5 = 0).
  { apply (computeVolatility_const 100); [lra | apply Forall_repeat_eq | lia |].
    rewrite repeat_length. lia. }
  unfold signal_of. cbn [shortWindow longWindow volWindow calm_config].
  rewrite !HM, HV by lia.
  destruct s;
    unfold signalStraddle, signalStrangle, signalBull, signalBear,
           signalButterfly, Rgtb;
    cbn [volThresholdHigh volThresholdLow volThresholdHighStrangle
         volThresholdLowStrangle calm_config];
    rcases; try reflexivity; exfalso; lra.
Qed.

(** The four other strategies stay flat with a total of 0. *)
Lemma calm_flat s junk draws n :
  s <> ButterflySpread ->
  tick_event s calm_config draws (Z.of_nat (S n)) (run calm_config junk draws n) = Idle /\
  open (activeTrades (run calm_config junk draws n) (slot s)) = false /\
  cumulativePnL (run calm_config junk draws n) (slot s) = 0.
Proof.
  intros Hs.
  assert (Hinv : forall k,
            open (activeTrades (run calm_config junk draws k) (slot s)) = false /\
            cumulativePnL (run calm_config junk draws k) (slot s) = 0 ->
            tick_event s calm_config draws (Z.of_nat (S k))
              (run calm_config junk draws k) = Idle).
  { intros k [Ho _]. unfold tick_event. rewrite calm_signal.
    apply event_of_flat_other; [assumption|]. destruct s; congruence. }
  assert (Hall : forall k,
            open (activeTrades (run calm_config junk draws k) (slot s)) = false /\
            cumulativePnL (run calm_config junk draws k) (slot s) = 0).
  { induction k as [|k IH].
    - split; [apply init_flat | apply init_pnl].
    - pose proof (Hinv k IH) as E.
      pose proof (tick_event_effect s calm_config draws (Z.of_nat (S k))
                    (run calm_config junk draws k)) as H.
      cbv zeta in H. rewrite E in H. rewrite run_S.
      destruct H as [-> ->]. exact IH. }
  split; [apply Hinv, Hall | apply Hall].
Qed.

Lemma calm_butterfly_payoff :
  butterflySpreadPayoff 100 (100 * (1 - 0.05)) 100 (100 * (1 + 0.05)) = 5.
Proof.
  unfold butterflySpreadPayoff.
  rewrite (Rmax_pos_l (100 - 100 * (1 - 0.05))) by lra.
  rewrite (Rmax_neg_l (100 - 100)) by lra.
  rewrite (Rmax_neg_l (100 - 100 * (1 + 0.05))) by lra.
  lra.
Qed.

Lemma calm_butterfly_step junk draws n q r :
  n = (11 * q + r)%nat -> (r < 11)%nat ->
  calm_butterfly_inv q r (view 5 (run calm_config junk draws n)) ->
  tick_event ButterflySpread calm_config draws (Z.of_nat (S n))
    (run calm_config junk draws n) = calm_butterfly_event r /\
  calm_butterfly_inv (if Nat.eqb r 10 then S q else q)
                     (if Nat.eqb r 10 then 0 else S r)
                     (view 5 (run calm_config junk draws (S n))).
Proof.
  intros Hn Hr (Hp & Hflat & Hopen).
  cbn [view fst snd] in Hp, Hflat, Hopen.
  pose proof (tick_event_effect ButterflySpread calm_config draws (Z.of_nat (S n))
                (run calm_config junk draws n)) as H.
  cbv zeta in H. cbn [slot] in H.
  assert (HS : tick_price calm_config draws (Z.of_nat (S n))
                 (run calm_config junk draws n) = 100)
    by (rewrite calm_tick_price, calm_prices; apply last_repeat).
  rewrite HS in H.
  unfold tick_event in *. rewrite calm_signal in *. cbn [slot] in *.
  rewrite run_S. unfold calm_butterfly_inv, calm_butterfly_event, view.
  cbn [fst snd].
  destruct (Nat.eqb_spec r 0) as [R0|R0].
  - (* flat: the butterfly opens *)
    specialize (Hflat R0).
    rewrite (event_of_flat_enter calm_config _ _ Hflat) in *.
    destruct H as (_ & -> & ->). subst r. cbn [Nat.eqb].
    split; [reflexivity|]. split; [assumption|]. split; [discriminate|].
    intros _. cbn. repeat split; try reflexivity. f_equal. lia.
  - destruct (Hopen R0) as (Ho & He & H1 & H2 & H3 & Hv).
    destruct (Nat.eqb_spec r 10) as [R10|R10].
    + (* holding period reached: the butterfly closes *)
      rewrite (event_of_open_hold calm_config _ _ _ Ho) in *
        by (rewrite He; cbn [holdPeriod calm_config]; lia).
      destruct H as (_ & -> & ->). split; [reflexivity|].
      split; [|split; [reflexivity | congruence]].
      cbn [payoff_of]. rewrite H1, H2, H3, Hv, calm_butterfly_payoff, Hp, S_INR. lra.
    + (* still holding *)
      rewrite (event_of_open_idle calm_config _ _ _ Ho) in *
        by (try rewrite He; cbn [holdPeriod calm_config]; lia).
      destruct H as (-> & ->). split; [reflexivity|].
      split; [assumption|]. split; [discriminate|]. intros _.
      repeat split; assumption.
Qed.

Lemma calm_butterfly junk draws n :
  forall q r, n = (11 * q + r)%nat -> (r < 11)%nat ->
    calm_butterfly_inv q r (view 5 (run calm_config junk draws n)).
Proof.
  induction n as [|n IH]; intros q r Hn Hr.
  - assert (q = 0 /\ r = 0)%nat as [-> ->] by lia.
    unfold calm_butterfly_inv, view. cbn [fst snd].
    split; [cbn; lra|]. split; [reflexivity | congruence].
  - destruct r as [|r].
    + destruct q as [|q]; [lia|].
      destruct (calm_butterfly_step junk draws n q 10 ltac:(lia) ltac:(lia)
                  (IH q 10%nat ltac:(lia) ltac:(lia))) as [_ H].
      exact H.
    + destruct (calm_butterfly_step junk draws n q r ltac:(lia) ltac:(lia)
                  (IH q r ltac:(lia) ltac:(lia))) as [_ H].
      destruct (Nat.eqb_spec r 10); [lia | exact H].
Qed.

Lemma totalPnL_eq st :
  totalPnL st =
  0 + cumulativePnL st 1 + cumulativePnL st 2 + cumulativePnL st 3
    + cumulativePnL st 4 + cumulativePnL st 5.
Proof. reflexivity. Qed.

Lemma calm_run_length :
  Z.to_nat (totalTicks calm_config - 1) = (11 * 909)%nat.
Proof. reflexivity. Qed.

(** Totals of the calm market after a whole number of butterfly cycles. *)
Lemma calm_totals_at junk draws q :
  let st := run calm_config junk draws (11 * q) in
  cumulativePnL st 1 = 0 /\ cumulativePnL st 2 = 0 /\
  cumulativePnL st 3 = 0 /\ cumulativePnL st 4 = 0 /\
  cumulativePnL st 5 = 50 * INR q /\ totalPnL st = 50 * INR q.
Proof.
  cbv zeta. generalize (eq_refl (11 * q)%nat).
  generalize (11 * q)%nat at 2 3 4 5 6 7 8. intros n Hn.
  assert (P1 : cumulativePnL (run calm_config junk draws n) 1 = 0)
    by (apply (calm_flat Straddle junk draws n); discriminate).
  assert (P2 : cumulativePnL (run calm_config junk draws n) 2 = 0)
    by (apply (calm_flat Strangle junk draws n); discriminate).
  assert (P3 : cumulativePnL (run calm_config junk draws n) 3 = 0)
    by (apply (calm_flat BullSpread junk draws n); discriminate).
  assert (P4 : cumulativePnL (run calm_config junk draws n) 4 = 0)
    by (apply (calm_flat BearSpread junk draws n); discriminate).
  assert (P5 : cumulativePnL (run calm_config junk draws n) 5 = 50 * INR q).
  { destruct (calm_butterfly junk draws n q 0) as (Hp & _); [lia | lia |].
    exact Hp. }
  repeat (split; [assumption|]).
  rewrite totalPnL_eq, P1, P2, P3, P4, P5. lra.
Qed.

Lemma calm_total junk draws :
  cumulativePnL (simulate calm_config junk draws) 5 = 45450 /\
  totalPnL (simulate calm_config junk draws) = 45450.
Proof.
  rewrite simulate_run, calm_run_length.
  destruct (calm_totals_at junk draws 909) as (_ & _ & _ & _ & H5 & HT).
  assert (E : 50 * INR 909 = 45450).
  { rewrite INR_IZR_INZ. change (Z.of_nat 909) with 909%Z. lra. }
  rewrite E in H5, HT. split; assumption.
Qed.

(** C2 (amended). With drift 0 and volatility 0 and every other parameter as
    in [main], whatever the draws: the price stays at 100; straddle, strangle,
    bull spread and bear spread never leave the flat state (their signals are
    Exit at every tick, the two moving averages being equal) and their totals
    stay 0; the butterfly, whose signal is Enter at every tick, opens at ticks
    1, 12, 23, ..., closes ten ticks later and adds 50 at each close; the run
    ends with 45450 in the butterfly total and 45450 in all. *)
Theorem calm_market (junk : nat -> Trade) (draws : Z -> R) :
  (forall n, prices (run calm_config junk draws n) = repeat 100 (S n)) /\
  (forall n s, s <> ButterflySpread ->
     tick_event s calm_config draws (Z.of_nat (S n))
       (run calm_config junk draws n) = Idle /\
     open (activeTrades (run calm_config junk draws n) (slot s)) = false /\
     cumulativePnL (run calm_config junk draws n) (slot s) = 0) /\
  (forall q r, (r < 11)%nat ->
     tick_event ButterflySpread calm_config draws (Z.of_nat (S (11 * q + r)))
       (run calm_config junk draws (11 * q + r))
     = (if Nat.eqb r 0 then Opened else if Nat.eqb r 10 then Closed else Idle) /\
     cumulativePnL (run calm_config junk draws (11 * q + r)) 5 = 50 * INR q) /\
  cumulativePnL (simulate calm_config junk draws) 1 = 0 /\
  cumulativePnL (simulate calm_config junk draws) 2 = 0 /\
  cumulativePnL (simulate calm_config junk draws) 3 = 0 /\
  cumulativePnL (simulate calm_config junk draws) 4 = 0 /\
  cumulativePnL (simulate calm_config junk draws) 5 = 45450 /\
  totalPnL (simulate calm_config junk draws) = 45450.
Proof.
  split; [|split; [|split]].
  - intros n. apply calm_prices.
  - intros n s Hs. now apply calm_flat.
  - intros q r Hr.
    pose proof (calm_butterfly junk draws (11 * q + r) q r eq_refl Hr) as Inv.
    split.
    + apply (calm_butterfly_step junk draws (11 * q + r) q r eq_refl Hr Inv).
    + apply Inv.
  - rewrite simulate_run, calm_run_length.
    destruct (calm_totals_at junk draws 909) as (H1 & H2 & H3 & H4 & H5 & HT).
    assert (E : 50 * INR 909 = 45450).
    { rewrite INR_IZR_INZ. change (Z.of_nat 909) with 909%Z. lra. }
    rewrite E in H5, HT. repeat (split; [assumption|]). assumption.
Qed.

(** C2 as stated fails: in the calm market the butterfly, whose entry depends
    on a volatility threshold, opens at the first tick; the bull spread does
    nothing at the first tick; and the run ends with a total of 45450. *)
Lemma calm_market_counterexample :
  tick_event ButterflySpread calm_config (fun _ => 0) 1
    (run calm_config junk0 (fun _ => 0) 0) = Opened /\
  tick_event BullSpread calm_config (fun _ => 0) 1
    (run calm_config junk0 (fun _ => 0) 0) = Idle /\
  totalPnL (simulate calm_config junk0 (fun _ => 0)) = 45450 /\
  45450 <> 0.
Proof.
  split; [|split; [|split]].
  - pose proof (calm_butterfly junk0 (fun _ => 0) 0 0 0 eq_refl ltac:(lia)) as Inv.
    exact (proj1 (calm_butterfly_step junk0 (fun _ => 0) 0 0 0 eq_refl
                    ltac:(lia) Inv)).
  - apply (calm_flat BullSpread junk0 (fun _ => 0) 0). discriminate.
  - apply calm_total.
  - lra.
Qed.

(** The opening case of the lifecycle on the first tick of the calm market:
    the butterfly slot is flat, its signal is Enter, and the tick opens it. *)
Lemma trade_lifecycle_witness :
  (open (activeTrades (init calm_config junk0) (slot ButterflySpread)) = false /\
   signal_of ButterflySpread calm_config
     (prices (init calm_config junk0)
      ++ [tick_price calm_config (fun _ => 0) 1 (init calm_config junk0)]) 1
   = 1%Z) /\
  open (activeTrades (tick calm_config (fun _ => 0) 1 (init calm_config junk0))
          (slot ButterflySpread)) = true /\
  entryTick (activeTrades (tick calm_config (fun _ => 0) 1 (init calm_config junk0))
               (slot ButterflySpread)) = 1%Z.
Proof.
  assert (H : open (activeTrades (init calm_config junk0) (slot ButterflySpread))
              = false /\
              signal_of ButterflySpread calm_config
                (prices (init calm_config junk0)
                 ++ [tick_price calm_config (fun _ => 0) 1 (init calm_config junk0)]) 1
              = 1%Z).
  { split.
    - apply init_flat.
    - exact (calm_signal ButterflySpread junk0 (fun _ => 0) 0). }
  split; [exact H|].
  destruct (proj1 (trade_lifecycle ButterflySpread calm_config (fun _ => 0) 1
                     (init calm_config junk0)) H) as (Ho & He & _).
  split; [exact Ho | exact He].
Defined.

(** ** A run on which the bear spread total decreases *)

Lemma nextPrice_draw_for c p q :
  0 < sigma c -> 0 < dt c -> 0 < p -> 0 < q ->
  nextPrice c p (draw_for c p q) = q.
Proof.
  intros Hs Hdt Hp Hq. unfold nextPrice, draw_for.
  assert (0 < sqrt (dt c)) by now apply sqrt_lt_R0.
  replace ((mu c - 0.5 * sigma c * sigma c) * dt c +
           sigma c * sqrt (dt c) *
           ((ln (q / p) - (mu c - 0.5 * sigma c * sigma c) * dt c) /
            (sigma c * sqrt (dt c))))
    with (ln (q / p)) by (field; split; lra).
  rewrite exp_ln by (apply Rdiv_lt_0_compat; assumption).
  field. lra.
Qed.

Lemma bear_tick_price t st p q :
  last (prices st) 0 = p -> at_index bear_path (t - 1) = p ->
  at_index bear_path t = q -> 0 < p -> 0 < q ->
  tick_price main_config bear_draws t st = q.
Proof.
  intros Hl Hp Hq Pp Pq. unfold tick_price, bear_draws.
  rewrite Hl, Hp, Hq. apply nextPrice_draw_for; cbn; try lra; assumption.
Qed.

Lemma slot_step_opened s c t S_new alpha tr pnl :
  event_of c t alpha tr = Opened ->
  slot_step s c t S_new alpha (tr, pnl) = (opened_trade s c t S_new tr, pnl).
Proof. intros E. unfold slot_step. cbn [fst snd]. now rewrite E. Qed.

Lemma slot_step_closed s c t S_new alpha tr pnl :
  event_of c t alpha tr = Closed ->
  slot_step s c t S_new alpha (tr, pnl) =
  (closed_trade s t S_new tr, pnl + payoff_of s S_new tr * IZR (volume tr)).
Proof. intros E. unfold slot_step. cbn [fst snd]. now rewrite E. Qed.

Lemma slot_step_idle s c t S_new alpha tr pnl :
  event_of c t alpha tr = Idle ->
  slot_step s c t S_new alpha (tr, pnl) = (tr, pnl).
Proof. intros E. unfold slot_step. cbn [fst snd]. now rewrite E. Qed.

Lemma view_pair k st : view k st = (activeTrades st k, cumulativePnL st k).
Proof. reflexivity. Qed.

(** One tick of the bear spread under [main_config] and [bear_draws], from a
    state whose bear slot and total are known. *)
Lemma bear_step t st p l' sMA lMA tr pnl :
  tick_price main_config bear_draws t st = p ->
  prices st ++ [p] = l' ->
  computeMA l' t 5 = sMA -> computeMA l' t 20 = lMA ->
  activeTrades st 4 = tr -> cumulativePnL st 4 = pnl ->
  let v := slot_step BearSpread main_config t p (signalBear sMA lMA) (tr, pnl) in
  prices (tick main_config bear_draws t st) = l' /\
  activeTrades (tick main_config bear_draws t st) 4 = fst v /\
  cumulativePnL (tick main_config bear_draws t st) 4 = snd v.
Proof.
  intros Hp Hl Hs Hg Ht Hc. cbv zeta. split.
  - now rewrite tick_prices, Hp.
  - pose proof (tick_slot BearSpread main_config bear_draws t st) as H.
    cbv zeta in H. rewrite view_pair in H.
    cbn [signal_of shortWindow longWindow main_config slot] in H.
    rewrite Hp, Hl, Hs, Hg, Ht, Hc in H. exact H.
Qed.

Lemma signalBear_exit a b : b <= a -> signalBear a b = (-1)%Z.
Proof. intros H. destruct (signalBear_cases a b) as [[? E]|[? E]]; [lra | exact E]. Qed.

Lemma signalBear_enter a b : a < b -> signalBear a b = 1%Z.
Proof. intros H. destruct (signalBear_cases a b) as [[? E]|[? E]]; [exact E | lra]. Qed.

(** While the history is flat at 100 the bear slot stays flat. *)
Lemma bear_warmup t st l :
  prices st = l -> Forall (fun q => q = 100) l -> l <> [] ->
  at_index bear_path (t - 1) = 100 -> at_index bear_path t = 100 ->
  Z.of_nat (length l) = t ->
  open (activeTrades st 4) = false ->
  prices (tick main_config bear_draws t st) = l ++ [100] /\
  activeTrades (tick main_config bear_draws t st) 4 = activeTrades st 4 /\
  cumulativePnL (tick main_config bear_draws t st) 4 = cumulativePnL st 4.
Proof.
  intros Hl Hall Hne Hp Hq Hlen Ho.
  assert (HL : last (prices st) 0 = 100).
  { rewrite Hl. destruct (exists_last Hne) as (l0 & x & ->).
    rewrite last_last. apply Forall_app in Hall as [_ Hx]. now inversion Hx. }
  assert (Hall' : Forall (fun q => q = 100) (l ++ [100]))
    by (apply Forall_app; split; [assumption | repeat constructor]).
  assert (HM : forall w, (1 <= w)%Z -> computeMA (l ++ [100]) t w = 100).
  { intros w Hw. apply computeMA_const; [assumption | lia |].
    rewrite length_app. cbn [length]. lia. }
  destruct (bear_step t st 100 (l ++ [100]) 100 100
              (activeTrades st 4) (cumulativePnL st 4)) as (H1 & H2 & H3);
    try reflexivity.
  - apply (bear_tick_price t st 100 100); auto; lra.
  - now rewrite Hl.
  - apply HM. lia.
  - apply HM. lia.
  - rewrite signalBear_exit in H2, H3 by lra.
    rewrite slot_step_idle in H2, H3
      by (apply event_of_flat_other; [assumption | discriminate]).
    auto.
Qed.

Lemma bear_payoff :
  bearSpreadPayoff 101.2 (101 * (1 + 0.05)) (101 * (1 - 0.05)) = -0.4.
Proof.
  unfold bearSpreadPayoff.
  rewrite (Rmax_pos_l (101 * (1 + 0.05) - 101.2)) by lra.
  rewrite (Rmax_pos_l (101.2 - 101 * (1 - 0.05))) by lra.
  lra.
Qed.

Lemma bear_opened_fields tr :
  let tr' := opened_trade BearSpread main_config 4 101 tr in
  open tr' = true /\ entryTick tr' = 4%Z /\ volume tr' = 10%Z /\
  strike1 tr' = 101 * (1 + 0.05) /\ strike2 tr' = 101 * (1 - 0.05).
Proof. repeat split. Qed.

(** Six ticks along [bear_path] from any state that holds the initial price,
    a flat bear slot and a bear total of 0. *)
Lemma bear_chain st0 :
  prices st0 = [100] -> open (activeTrades st0 4) = false ->
  cumulativePnL st0 4 = 0 ->
  let st5 :=
    tick main_config bear_draws 5 (tick main_config bear_draws 4
      (tick main_config bear_draws 3 (tick main_config bear_draws 2
        (tick main_config bear_draws 1 st0)))) in
  cumulativePnL st5 4 = 0 /\
  cumulativePnL (tick main_config bear_draws 6 st5) 4 = -4.
Proof.
  intros P0 O0 C0. cbv zeta.
  (* ticks 1 to 3: flat history, nothing happens *)
  destruct (bear_warmup 1 st0 [100] P0) as (P1 & T1 & C1);
    [repeat constructor | discriminate | reflexivity | reflexivity
    | reflexivity | assumption |].
  revert P1 T1 C1. generalize (tick main_config bear_draws 1 st0).
  intros st1 P1 T1 C1. rewrite C0 in C1.
  assert (O1 : open (activeTrades st1 4) = false) by (rewrite T1; exact O0).
  clear T1 C0 P0 O0 st0. cbn [app] in P1.
  destruct (bear_warmup 2 st1 [100; 100] P1) as (P2 & T2 & C2);
    [repeat constructor | discriminate | reflexivity | reflexivity
    | reflexivity | assumption |].
  revert P2 T2 C2. generalize (tick main_config bear_draws 2 st1).
  intros st2 P2 T2 C2. rewrite C1 in C2.
  assert (O2 : open (activeTrades st2 4) = false) by (rewrite T2; exact O1).
  clear T2 C1 P1 O1 st1. cbn [app] in P2.
  destruct (bear_warmup 3 st2 [100; 100; 100] P2) as (P3 & T3 & C3);
    [repeat constructor | discriminate | reflexivity | reflexivity
    | reflexivity | assumption |].
  revert P3 T3 C3. generalize (tick main_config bear_draws 3 st2).
  intros st3 P3 T3 C3. rewrite C2 in C3.
  assert (O3 : open (activeTrades st3 4) = false) by (rewrite T3; exact O2).
  clear T3 C2 P2 O2 st2. cbn [app] in P3.
  (* tick 4: the price rises to 101 and the bear spread opens *)
  destruct (bear_step 4 st3 101 [100; 100; 100; 100; 101]
              ((0 + 100 + 100 + 100 + 100 + 101) / 5) 101
              (activeTrades st3 4) 0) as (P4 & T4 & C4);
    try reflexivity; try assumption.
  { apply (bear_tick_price 4 st3 100 101); try reflexivity; try lra.
    now rewrite P3. }
  { now rewrite P3. }
  revert P4 T4 C4. generalize (tick main_config bear_draws 4 st3).
  intros st4 P4 T4 C4.
  rewrite signalBear_enter in T4, C4 by lra.
  rewrite (slot_step_opened _ _ _ _ _ _ _
             (event_of_flat_enter main_config 4 _ O3)) in T4, C4.
  cbn [fst snd] in T4, C4.
  destruct (bear_opened_fields (activeTrades st3 4)) as (F1 & F2 & F3 & F4 & F5).
  cbv zeta in F1, F2, F3, F4, F5.
  revert T4 F1 F2 F3 F4 F5.
  generalize (opened_trade BearSpread main_config 4 101 (activeTrades st3 4)).
  intros tr4 T4 F1 F2 F3 F4 F5.
  clear C3 O3 P3 st3.
  (* tick 5: the price is 104, the trade is held *)
  destruct (bear_step 5 st4 104 [100; 100; 100; 100; 101; 104]
              ((0 + 100 + 100 + 100 + 101 + 104) / 5) 104 tr4 0)
    as (P5 & T5 & C5); try reflexivity; try assumption.
  { apply (bear_tick_price 5 st4 101 104); try reflexivity; try lra.
    now rewrite P4. }
  { now rewrite P4. }
  revert P5 T5 C5. generalize (tick main_config bear_draws 5 st4).
  intros st5 P5 T5 C5.
  rewrite signalBear_enter in T5, C5 by lra.
  rewrite slot_step_idle in T5, C5
    by (apply event_of_open_idle;
        [assumption | rewrite F2; cbn; lia | discriminate]).
  cbn [fst snd] in T5, C5.
  clear C4 T4 P4 st4.
  split; [assumption|].
  (* tick 6: the price is 101.2, the short average is above it: exit *)
  destruct (bear_step 6 st5 101.2 [100; 100; 100; 100; 101; 104; 101.2]
              ((0 + 100 + 100 + 101 + 104 + 101.2) / 5) 101.2 tr4 0)
    as (_ & _ & C6); try reflexivity; try assumption.
  { apply (bear_tick_price 6 st5 104 101.2); try reflexivity; try lra.
    now rewrite P5. }
  { now rewrite P5. }
  rewrite signalBear_exit in C6 by lra.
  rewrite (slot_step_closed _ _ _ _ _ _ _
             (event_of_open_exit main_config 6 _ F1)) in C6.
  cbn [fst snd payoff_of] in C6.
  rewrite C6, F3, F4, F5, bear_payoff. lra.
Qed.

Lemma run_six c junk draws :
  run c junk draws 5 =
    tick c draws 5 (tick c draws 4 (tick c draws 3 (tick c draws 2
      (tick c draws 1 (init c junk))))) /\
  run c junk draws 6 = tick c draws 6 (run c junk draws 5).
Proof.
  split.
  - rewrite (run_S c junk draws 4), (run_S c junk draws 3),
      (run_S c junk draws 2), (run_S c junk draws 1), (run_S c junk draws 0).
    reflexivity.
  - apply (run_S c junk draws 5).
Qed.

(** C3. The cumulative PnL of a strategy is claimed never to decrease; the
    program breaks this for the bear spread.  In the run of [main] whose draws
    (about -0.005, -0.005, -0.005, 0.99, 2.92, -2.73) produce the prices 100,
    100, 100, 100, 101, 104, 101.2, the bear spread opens at tick 4 at price
    101 with strikes 106.05 and 95.95 and closes at tick 6 at price 101.2;
    [bearSpreadPayoff] returns [4.85 - 5.25 = -0.4], as its second leg is
    [max (S - K2) 0] and not the put payoff [max (K2 - S) 0], and the
    strategy's cumulative PnL goes from 0 after tick 5 to -4 after tick 6. *)
Theorem pnl_decreases_counterexample :
  bearSpreadPayoff 101.2 (101 * (1 + 0.05)) (101 * (1 - 0.05)) = -0.4 /\
  cumulativePnL (run main_config junk0 bear_draws 5) (slot BearSpread) = 0 /\
  cumulativePnL (run main_config junk0 bear_draws 6) (slot BearSpread) = -4 /\
  cumulativePnL (run main_config junk0 bear_draws 6) (slot BearSpread)
  < cumulativePnL (run main_config junk0 bear_draws 5) (slot BearSpread).
Proof.
  split; [exact bear_payoff|].
  destruct (run_six main_config junk0 bear_draws) as [R5 R6].
  rewrite R6, R5.
  destruct (bear_chain (init main_config junk0)) as [H5 H6].
  - reflexivity.
  - apply (init_flat main_config junk0 BearSpread).
  - apply init_pnl.
  - change (slot BearSpread) with 4%nat.
    split; [exact H5|]. split; [exact H6|]. rewrite H6, H5. lra.
Qed.

(** * Further properties of the payoff functions *)

(** X1. A straddle pays the distance between settlement price and strike: it
    is symmetric in the two and never negative. *)
Theorem straddle_is_distance (S K : R) :
  straddlePayoff S K = Rabs (S - K) /\
  straddlePayoff S K = straddlePayoff K S /\
  0 <= straddlePayoff S K /\
  (straddlePayoff S K = 0 <-> S = K).
Proof.
  unfold straddlePayoff, Rmax, Rabs.
  destruct (Rle_dec (S - K) 0), (Rle_dec (K - S) 0), (Rcase_abs (S - K));
    repeat split; intros; try lra.
Qed.

(** X2. A strangle never pays a negative amount, and pays nothing exactly when
    the settlement price lies between the put strike and the call strike. *)
Theorem strangle_zero_band (S K1 K2 : R) :
  0 <= stranglePayoff S K1 K2 /\
  (stranglePayoff S K1 K2 = 0 <-> K1 <= S <= K2).
Proof.
  unfold stranglePayoff, Rmax.
  destruct (Rle_dec (K1 - S) 0), (Rle_dec (S - K2) 0);
    repeat split; intros; try lra.
Qed.

(** X3. With the long strike not above the short strike a bull spread never
    pays a negative amount; up to the short strike it pays what a single call
    at the long strike pays, so nothing at or below the long strike. *)
Theorem bull_spread_nonneg (K1 K2 : R) (HK : K1 <= K2) :
  (forall S, 0 <= bullSpreadPayoff S K1 K2) /\
  (forall S, S <= K2 -> bullSpreadPayoff S K1 K2 = Rmax (S - K1) 0) /\
  (forall S, S <= K1 -> bullSpreadPayoff S K1 K2 = 0).
Proof.
  repeat split; intros; unfold bullSpreadPayoff, Rmax;
    repeat match goal with
    | |- context [Rle_dec ?a ?b] => destruct (Rle_dec a b)
    end; lra.
Qed.

Lemma bull_spread_nonneg_witness :
  90 <= 110 /\ bullSpreadPayoff 100 90 110 = Rmax (100 - 90) 0.
Proof.
  assert (H : 90 <= 110) by lra.
  split; [exact H|].
  exact (proj1 (proj2 (bull_spread_nonneg 90 110 H)) 100 ltac:(lra)).
Defined.



(** X5. For strikes in ascending order, up to the middle strike a butterfly
    spread pays what a single call at the lowest strike pays: nothing at or
    below the lowest strike, and the distance of the two lower strikes at the
    middle strike. *)
Theorem butterfly_below_middle (K1 K2 K3 : R) (H12 : K1 <= K2) (H23 : K2 <= K3) :
  (forall S, S <= K2 -> butterflySpreadPayoff S K1 K2 K3 = Rmax (S - K1) 0) /\
  (forall S, S <= K1 -> butterflySpreadPayoff S K1 K2 K3 = 0) /\
  butterflySpreadPayoff K2 K1 K2 K3 = K2 - K1.
Proof.
  repeat split; intros; unfold butterflySpreadPayoff, Rmax;
    repeat match goal with
    | |- context [Rle_dec ?a ?b] => destruct (Rle_dec a b)
    end; lra.
Qed.

Lemma butterfly_below_middle_witness :
  (95 <= 100 /\ 100 <= 105) /\
  butterflySpreadPayoff 100 95 100 105 = 100 - 95.
Proof.
  assert (H : 95 <= 100 /\ 100 <= 105) by lra.
  split; [exact H|]. destruct H as [H1 H2].
  exact (proj2 (proj2 (butterfly_below_middle 95 100 105 H1 H2))).
Defined.

(** * Further properties of the indicators *)

Lemma log_returns_scale (k : R) (l : list R) :
  k <> 0 -> Forall (fun p => 0 < p) l ->
  log_returns (map (Rmult k) l) = log_returns l.
Proof.
  intros Hk. induction l as [|p l IH]; intros H; [reflexivity|].
  destruct l as [|q l]; [reflexivity|].
  change (log_returns (map (Rmult k) (p :: q :: l)))
    with (ln (k * q / (k * p)) :: log_returns (map (Rmult k) (q :: l))).
  change (log_returns (p :: q :: l)) with (ln (q / p) :: log_returns (q :: l)).
  inversion H as [|? ? Hp H']; subst.
  rewrite IH by assumption. f_equal. f_equal. field. split; lra.
Qed.

Lemma computeVolatility_nonneg (prices : list R) (t w : Z) :
  0 <= computeVolatility prices t w.
Proof.
  unfold computeVolatility. destruct (t <? w)%Z; [lra | apply sqrt_pos].
Qed.

(** X8. The volatility is never negative and, for positive prices, does not
    depend on the unit of the prices: multiplying the whole history by a
    positive factor leaves it unchanged. *)
Theorem computeVolatility_scale (prices : list R) (t w : Z) (k : R)
    (Hk : 0 < k) (Hw : (1 <= w)%Z) (Ht : (0 <= t < Z.of_nat (length prices))%Z)
    (Hpos : Forall (fun p => 0 < p) prices) :
  0 <= computeVolatility prices t w /\
  computeVolatility (map (Rmult k) prices) t w = computeVolatility prices t w.
Proof.
  split; [apply computeVolatility_nonneg|].
  destruct (Z.lt_ge_cases t w).
  - unfold computeVolatility. destruct (Z.ltb_spec t w); [reflexivity | lia].
  - rewrite !computeVolatility_eq by (rewrite ?length_map; lia).
    unfold slice at 1. rewrite skipn_map, firstn_map.
    fold (slice prices (Z.to_nat (t - w)) (S (Z.to_nat w))).
    rewrite log_returns_scale; [reflexivity | lra | now apply Forall_slice].
Qed.

Lemma computeVolatility_scale_witness :
  (0 < 3 /\ (1 <= 2)%Z /\ (0 <= 2 < Z.of_nat (length [1; 2; 2]))%Z /\
   Forall (fun p => 0 < p) [1; 2; 2]) /\
  computeVolatility (map (Rmult 3) [1; 2; 2]) 2 2 = computeVolatility [1; 2; 2] 2 2.
Proof.
  assert (H : 0 < 3 /\ (1 <= 2)%Z /\ (0 <= 2 < Z.of_nat (length [1; 2; 2]))%Z /\
              Forall (fun p => 0 < p) [1; 2; 2]).
  { split; [lra|]. split; [lia|]. split; [cbn; lia|]. repeat constructor; lra. }
  split; [exact H|]. destruct H as (H1 & H2 & H3 & H4).
  exact (proj2 (computeVolatility_scale [1; 2; 2] 2 2 3 H1 H2 H3 H4)).
Defined.

(** ** No read outside the price history, no [int] overflow *)

Lemma read_in_range (prices : list R) (i : Z) :
  (0 <= i < Z.of_nat (length prices))%Z ->
  read prices i = Some (at_index prices i).
Proof.
  intros H. unfold read.
  destruct (Z.leb_spec 0 i); [|lia].
  destruct (Z.ltb_spec i (Z.of_nat (length prices))); [reflexivity | lia].
Qed.

Lemma read_out_of_range (prices : list R) (i : Z) :
  (i < 0 \/ Z.of_nat (length prices) <= i)%Z -> read prices i = None.
Proof.
  intros H. unfold read.
  destruct (Z.leb_spec 0 i); [|reflexivity].
  destruct (Z.ltb_spec i (Z.of_nat (length prices))); [lia | reflexivity].
Qed.

Lemma sum_loop_checked (prices : list R) (n : nat) :
  forall (i : Z) (a : R),
    (n = 0%nat \/ (0 <= i /\ i + Z.of_nat n <= Z.of_nat (length prices)))%Z ->
    for_from n i
      (fun i sum =>
         match sum, read prices i with
         | Some sum, Some p => Some (sum + p)
         | _, _ => None
         end) (Some a)
    = Some (for_from n i (fun i sum => sum + at_index prices i) a).
Proof.
  induction n as [|n IH]; intros i a H; [reflexivity|].
  destruct H as [H|H]; [discriminate|].
  cbn [for_from]. rewrite read_in_range by lia. apply IH. lia.
Qed.

Lemma returns_loop_checked (prices : list R) (n : nat) :
  forall (i : Z) (acc : list R),
    (n = 0%nat \/
     (1 <= i /\ i + Z.of_nat n <= Z.of_nat (length prices) /\
      i + Z.of_nat n <= INT_MAX + 1))%Z ->
    for_from n i
      (fun i returns =>
         if (i =? 0)%Z then returns
         else
           match returns, read prices i, int_checked (i - 1) with
           | Some returns, Some p, Some j =>
               match read prices j with
               | Some q => Some (returns ++ [ln (p / q)])
               | None => None
               end
           | _, _, _ => None
           end) (Some acc)
    = Some (for_from n i
              (fun i returns =>
                 if (i =? 0)%Z then returns
                 else returns ++ [ln (at_index prices i / at_index prices (i - 1))])
              acc).
Proof.
  induction n as [|n IH]; intros i acc H; [reflexivity|].
  destruct H as [H|H]; [discriminate|].
  cbn [for_from]. destruct (Z.eqb_spec i 0); [lia|].
  rewrite read_in_range by lia.
  assert (E : int_checked (i - 1) = Some (i - 1)%Z).
  { unfold int_checked, INT_MIN, INT_MAX in *.
    destruct (Z.leb_spec (-2147483648) (i - 1)); [|lia].
    destruct (Z.leb_spec (i - 1) 2147483647); [reflexivity | lia]. }
  rewrite E, read_in_range by lia. apply IH. lia.
Qed.

Lemma computeVolatility_unfold (prices : list R) (t w : Z) :
  computeVolatility prices t w =
  if (t <? w)%Z then 0 else volatility_of (collect_returns prices t w).
Proof. reflexivity. Qed.

Lemma int_checked_in_range (z : Z) :
  (INT_MIN <= z <= INT_MAX)%Z -> int_checked z = Some z.
Proof.
  intros H. unfold int_checked.
  destruct (Z.leb_spec INT_MIN z); [|lia].
  destruct (Z.leb_spec z INT_MAX); [reflexivity | lia].
Qed.

Lemma int_checked_out_of_range (z : Z) :
  (z < INT_MIN \/ INT_MAX < z)%Z -> int_checked z = None.
Proof.
  intros H. unfold int_checked.
  destruct (Z.leb_spec INT_MIN z); [|reflexivity].
  destruct (Z.leb_spec z INT_MAX); [lia | reflexivity].
Qed.

Lemma loop_start_ok (t w : Z) :
  (0 <= t <= INT_MAX)%Z -> (t - INT_MAX < w <= INT_MAX)%Z ->
  loop_start t w = Some (t - w + 1)%Z.
Proof.
  intros Ht Hw. unfold loop_start.
  rewrite int_checked_in_range by (unfold INT_MIN, INT_MAX in *; lia).
  apply int_checked_in_range. unfold INT_MIN, INT_MAX in *. lia.
Qed.

Lemma loop_start_overflow (t w : Z) :
  (0 <= t)%Z -> (w <= t - INT_MAX)%Z -> loop_start t w = None.
Proof.
  intros Ht Hw. unfold loop_start.
  destruct (Z.eq_dec (t - w) INT_MAX) as [E|E].
  - rewrite int_checked_in_range by (unfold INT_MIN, INT_MAX in *; lia).
    apply int_checked_out_of_range. lia.
  - now rewrite int_checked_out_of_range by lia.
Qed.

Lemma indicators_checked_ok (prices : list R) (t w : Z) :
  (0 <= t < Z.of_nat (length prices))%Z -> (t < INT_MAX)%Z ->
  (t - INT_MAX < w <= INT_MAX)%Z ->
  computeMA_checked prices t w = Some (computeMA prices t w) /\
  computeVolatility_checked prices t w = Some (computeVolatility prices t w).
Proof.
  intros Ht Hm Hw. split.
  - unfold computeMA_checked, computeMA.
    rewrite int_checked_in_range by (unfold INT_MIN, INT_MAX in *; lia).
    destruct (Z.ltb_spec t (w - 1)); [now apply read_in_range|].
    rewrite loop_start_ok by lia. cbv zeta. unfold for_range_checked.
    destruct (Z.leb_spec (t - w + 1) t).
    + rewrite int_checked_in_range by (unfold INT_MIN, INT_MAX in *; lia).
      unfold for_range. rewrite sum_loop_checked; [reflexivity|]. right. lia.
    + unfold for_range. replace (Z.to_nat (t - (t - w + 1) + 1)) with 0%nat by lia.
      reflexivity.
  - rewrite computeVolatility_unfold. unfold computeVolatility_checked.
    destruct (Z.ltb_spec t w); [reflexivity|].
    unfold collect_returns_checked, collect_returns.
    rewrite loop_start_ok by lia. unfold for_range_checked.
    destruct (Z.leb_spec (t - w + 1) t).
    + rewrite int_checked_in_range by (unfold INT_MIN, INT_MAX in *; lia).
      unfold for_range. rewrite returns_loop_checked; [reflexivity|].
      right. unfold INT_MAX in *. lia.
    + unfold for_range. replace (Z.to_nat (t - (t - w + 1) + 1)) with 0%nat by lia.
      reflexivity.
Qed.

(** X10. A call of [computeMA] or [computeVolatility] at a tick inside the
    history and below [INT_MAX], with a window [w] such that
    [currentTick - INT_MAX < w], performs no undefined operation: every read
    is inside the history and no [int] operation overflows.  Outside these
    bounds it can: at a tick outside the history the warm-up branch of
    [computeMA] reads outside, and for a window [w <= currentTick - INT_MAX]
    the loop start of [computeMA] overflows. *)
Theorem indicators_read_in_bounds (prices : list R) (t w : Z)
    (Ht : (0 <= t < Z.of_nat (length prices))%Z) (Hmax : (t < INT_MAX)%Z)
    (Hw : (t - INT_MAX < w <= INT_MAX)%Z) :
  computeMA_checked prices t w = Some (computeMA prices t w) /\
  computeVolatility_checked prices t w = Some (computeVolatility prices t w) /\
  (forall t', (t' < 0 \/ Z.of_nat (length prices) <= t')%Z -> (t' < w - 1)%Z ->
     computeMA_checked prices t' w = None) /\
  (forall w', (INT_MIN <= w' <= t - INT_MAX)%Z ->
     computeMA_checked prices t w' = None).
Proof.
  destruct (indicators_checked_ok prices t w Ht Hmax Hw) as [H1 H2].
  split; [exact H1|]. split; [exact H2|]. split.
  - intros t' Hout Hwarm. unfold computeMA_checked.
    rewrite int_checked_in_range by (unfold INT_MIN, INT_MAX in *; lia).
    destruct (Z.ltb_spec t' (w - 1)); [now apply read_out_of_range | lia].
  - intros w' Hw'. unfold computeMA_checked.
    destruct (Z.eq_dec w' INT_MIN) as [->|Hne].
    + now rewrite int_checked_out_of_range by (unfold INT_MIN, INT_MAX; lia).
    + rewrite int_checked_in_range by (unfold INT_MIN, INT_MAX in *; lia).
      destruct (Z.ltb_spec t (w' - 1)); [unfold INT_MAX in *; lia|].
      now rewrite loop_start_overflow by lia.
Qed.

Lemma indicators_read_in_bounds_witness :
  ((0 <= 2 < Z.of_nat (length [100; 102; 104]))%Z /\ (2 < INT_MAX)%Z /\
   (2 - INT_MAX < 2 <= INT_MAX)%Z) /\
  computeMA_checked [100; 102; 104] 2 2 = Some (computeMA [100; 102; 104] 2 2).
Proof.
  assert (H : (0 <= 2 < Z.of_nat (length [100; 102; 104]))%Z /\ (2 < INT_MAX)%Z /\
              (2 - INT_MAX < 2 <= INT_MAX)%Z)
    by (unfold INT_MAX; cbn; lia).
  split; [exact H|]. destruct H as (H1 & H2 & H3).
  exact (proj1 (indicators_read_in_bounds [100; 102; 104] 2 2 H1 H2 H3)).
Defined.

(** X11. In every run of [main] whose tick counter stays below [INT_MAX] and
    whose three windows are between 1 and [INT_MAX], whatever the draws: the
    price vector is never empty when [back()] is called, and the three
    indicator calls of every tick perform no undefined operation (no read
    outside the vector, no [int] overflow). *)
Theorem main_reads_in_bounds (c : Config) (junk : nat -> Trade) (draws : Z -> R)
    (n : nat)
    (Hticks : (Z.of_nat (S n) < INT_MAX)%Z)
    (Hshort : (1 <= shortWindow c <= INT_MAX)%Z)
    (Hlong : (1 <= longWindow c <= INT_MAX)%Z)
    (Hvol : (1 <= volWindow c <= INT_MAX)%Z) :
  let t := Z.of_nat (S n) in
  let prices' := prices (run c junk draws n)
                 ++ [tick_price c draws t (run c junk draws n)] in
  prices (run c junk draws n) <> [] /\
  prices (run c junk draws (S n)) = prices' /\
  computeMA_checked prices' t (shortWindow c)
    = Some (computeMA prices' t (shortWindow c)) /\
  computeMA_checked prices' t (longWindow c)
    = Some (computeMA prices' t (longWindow c)) /\
  computeVolatility_checked prices' t (volWindow c)
    = Some (computeVolatility prices' t (volWindow c)).
Proof.
  cbv zeta.
  assert (Hlen : (0 <= Z.of_nat (S n)
                  < Z.of_nat (length (prices (run c junk draws n)
                       ++ [tick_price c draws (Z.of_nat (S n)) (run c junk draws n)])))%Z).
  { rewrite length_app, run_prices_length. cbn [length]. lia. }
  split; [|split; [|split; [|split]]].
  - intros E. pose proof (run_prices_length c junk draws n) as L.
    rewrite E in L. discriminate.
  - rewrite run_S. apply tick_prices.
  - apply indicators_checked_ok; [exact Hlen | exact Hticks | lia].
  - apply indicators_checked_ok; [exact Hlen | exact Hticks | lia].
  - apply indicators_checked_ok; [exact Hlen | exact Hticks | lia].
Qed.

Lemma main_reads_in_bounds_witness :
  ((Z.of_nat 6 < INT_MAX)%Z /\ (1 <= shortWindow main_config <= INT_MAX)%Z /\
   (1 <= longWindow main_config <= INT_MAX)%Z /\
   (1 <= volWindow main_config <= INT_MAX)%Z) /\
  computeVolatility_checked
    (prices (run main_config junk0 (fun _ => 0) 5)
     ++ [tick_price main_config (fun _ => 0) (Z.of_nat 6)
           (run main_config junk0 (fun _ => 0) 5)])
    (Z.of_nat 6) (volWindow main_config)
  = Some (computeVolatility
            (prices (run main_config junk0 (fun _ => 0) 5)
             ++ [tick_price main_config (fun _ => 0) (Z.of_nat 6)
                   (run main_config junk0 (fun _ => 0) 5)])
            (Z.of_nat 6) (volWindow main_config)).
Proof.
  assert (H : (Z.of_nat 6 < INT_MAX)%Z /\
              (1 <= shortWindow main_config <= INT_MAX)%Z /\
              (1 <= longWindow main_config <= INT_MAX)%Z /\
              (1 <= volWindow main_config <= INT_MAX)%Z)
    by (unfold INT_MAX; cbn; lia).
  split; [exact H|]. destruct H as (H1 & H2 & H3 & H4).
  exact (proj2 (proj2 (proj2 (proj2
           (main_reads_in_bounds main_config junk0 (fun _ => 0) 5 H1 H2 H3 H4))))).
Defined.

(** * Further properties of the price path *)

Lemma run_prices_prefix c junk draws n m :
  (n <= m)%nat ->
  prices (run c junk draws n) = firstn (S n) (prices (run c junk draws m)).
Proof.
  induction 1 as [|m Hnm IH].
  - rewrite firstn_all2; [reflexivity|]. rewrite run_prices_length. lia.
  - rewrite run_S, tick_prices, firstn_app, run_prices_length.
    replace (S n - S m)%nat with 0%nat by lia.
    cbn [firstn]. now rewrite app_nil_r.
Qed.

Lemma firstn_nth (l : list R) (k j : nat) :
  (k < j)%nat -> nth k (firstn j l) 0 = nth k l 0.
Proof.
  revert k l. induction j as [|j IH]; intros k l H; [lia|].
  destruct l as [|x l]; [reflexivity|].
  destruct k as [|k]; [reflexivity|]. cbn. apply IH. lia.
Qed.

(** X12. The price history only grows: after [n] ticks it has [n + 1] entries
    and starts with the initial price, and the history after [n] ticks is the
    beginning of the history after any later tick. *)
Theorem prices_append_only (c : Config) (junk : nat -> Trade) (draws : Z -> R)
    (n m : nat) (Hnm : (n <= m)%nat) :
  length (prices (run c junk draws n)) = S n /\
  nth 0 (prices (run c junk draws n)) 0 = S0 c /\
  prices (run c junk draws n) = firstn (S n) (prices (run c junk draws m)).
Proof.
  split; [apply run_prices_length|]. split; [|now apply run_prices_prefix].
  change (S0 c) with (nth 0 (prices (run c junk draws 0)) 0).
  rewrite (run_prices_prefix c junk draws 0 n) by lia.
  now rewrite firstn_nth by lia.
Qed.

Lemma prices_append_only_witness :
  (2 <= 3)%nat /\
  prices (run main_config junk0 (fun _ => 0) 2)
  = firstn 3 (prices (run main_config junk0 (fun _ => 0) 3)).
Proof.
  assert (H : (2 <= 3)%nat) by lia.
  split; [exact H|].
  exact (proj2 (proj2 (prices_append_only main_config junk0 (fun _ => 0) 2 3 H))).
Defined.

(** X15. Trading never feeds back into the market.  One tick: the price
    history a tick leaves is the same from any two states with the same
    history, whatever their trade records and cumulative totals.  Whole run:
    two runs with the same initial price, drift, volatility and time step and
    the same draws for ticks 1 to [n] have the same price history after [n]
    ticks, whatever their windows, thresholds, holding period, strike offset
    and the initial contents of their trade arrays. *)
Theorem prices_independent_of_trades (c c' : Config) (junk junk' : nat -> Trade)
    (draws draws' : Z -> R) (n : nat)
    (HS0 : S0 c = S0 c') (Hmu : mu c = mu c') (Hsigma : sigma c = sigma c')
    (Hdt : dt c = dt c')
    (Hdraws : forall t, (1 <= t <= Z.of_nat n)%Z -> draws t = draws' t) :
  (forall t st st', prices st = prices st' ->
     prices (tick c draws t st) = prices (tick c draws t st')) /\
  prices (run c junk draws n) = prices (run c' junk' draws' n).
Proof.
  split.
  - intros t st st' E. rewrite !tick_prices. unfold tick_price. now rewrite E.
  - induction n as [|n IH]; [cbn; now rewrite HS0|].
    rewrite !run_S, !tick_prices. unfold tick_price, nextPrice.
    rewrite IH by (intros; apply Hdraws; lia).
    rewrite (Hdraws (Z.of_nat (S n))) by lia.
    now rewrite Hmu, Hsigma, Hdt.
Qed.

Lemma prices_independent_of_trades_witness :
  (S0 main_config = S0 (mkConfig 10000 100 0.0001 0.01 1 3 0.1 2 4 2 0.5 0.1 0.6 0.2) /\
   mu main_config = mu (mkConfig 10000 100 0.0001 0.01 1 3 0.1 2 4 2 0.5 0.1 0.6 0.2) /\
   sigma main_config
   = sigma (mkConfig 10000 100 0.0001 0.01 1 3 0.1 2 4 2 0.5 0.1 0.6 0.2) /\
   dt main_config = dt (mkConfig 10000 100 0.0001 0.01 1 3 0.1 2 4 2 0.5 0.1 0.6 0.2) /\
   (forall t, (1 <= t <= Z.of_nat 2)%Z -> (fun _ : Z => 0) t = (fun _ : Z => 0) t)) /\
  prices (run main_config junk0 (fun _ => 0) 2)
  = prices (run (mkConfig 10000 100 0.0001 0.01 1 3 0.1 2 4 2 0.5 0.1 0.6 0.2)
              (fun _ => mkTrade 1 2 3 4 5 6 7 8 9 10 true) (fun _ => 0) 2).
Proof.
  split; [repeat split|].
  exact (proj2 (prices_independent_of_trades main_config
                  (mkConfig 10000 100 0.0001 0.01 1 3 0.1 2 4 2 0.5 0.1 0.6 0.2)
                  junk0 (fun _ => mkTrade 1 2 3 4 5 6 7 8 9 10 true)
                  (fun _ => 0) (fun _ => 0) 2
                  eq_refl eq_refl eq_refl eq_refl (fun _ _ => eq_refl))).
Defined.

(** * Further properties of the trade ledger *)

Lemma tick_event_closed_cond s c draws t st :
  tick_event s c draws t st = Closed ->
  open (activeTrades st (slot s)) = true /\
  ((t - entryTick (activeTrades st (slot s)) >= holdPeriod c)%Z \/
   signal_of s c (prices st ++ [tick_price c draws t st]) t = (-1)%Z).
Proof.
  unfold tick_event. intros E.
  destruct (event_of_cases c t
              (signal_of s c (prices st ++ [tick_price c draws t st]) t)
              (activeTrades st (slot s)))
    as [(E' & _)|[(_ & Ho & Hc)|(E' & _)]]; [congruence | auto | congruence].
Qed.

Lemma tick_event_idle_open s c draws t st :
  tick_event s c draws t st = Idle ->
  open (activeTrades st (slot s)) = true ->
  (t - entryTick (activeTrades st (slot s)) < holdPeriod c)%Z.
Proof.
  unfold tick_event. intros E Ho.
  destruct (event_of_cases c t
              (signal_of s c (prices st ++ [tick_price c draws t st]) t)
              (activeTrades st (slot s)))
    as [(E' & _)|[(E' & _)|(_ & _ & N)]]; [congruence | congruence |].
  destruct (Z.lt_ge_cases (t - entryTick (activeTrades st (slot s))) (holdPeriod c));
    [assumption|].
  exfalso. apply N. split; [assumption | left; lia].
Qed.

Lemma at_index_last (l : list R) (x : R) :
  at_index (l ++ [x]) (Z.of_nat (length l)) = x.
Proof. unfold at_index. rewrite Nat2Z.id. apply nth_middle. Qed.

Lemma at_index_app (l : list R) (x : R) (i : Z) :
  (0 <= i < Z.of_nat (length l))%Z -> at_index (l ++ [x]) i = at_index l i.
Proof. intros H. unfold at_index. apply app_nth1. lia. Qed.

Lemma opened_trade_fields s c t S tr :
  let tr' := opened_trade s c t S tr in
  strategyType tr' = Z.of_nat (slot s) /\ volume tr' = 10%Z /\
  entryTick tr' = t /\ entryPrice tr' = S /\ strikes_from_entry s c tr'.
Proof. destruct s; cbn; repeat split; reflexivity. Qed.

Lemma run_open_ok s c junk draws n :
  open (activeTrades (run c junk draws n) (slot s)) = true ->
  open_trade_ok s c n (prices (run c junk draws n))
    (activeTrades (run c junk draws n) (slot s)) /\
  ((1 <= holdPeriod c)%Z ->
   (Z.of_nat n - entryTick (activeTrades (run c junk draws n) (slot s))
    < holdPeriod c)%Z).
Proof.
  induction n as [|n IH].
  - change (run c junk draws 0) with (init c junk). rewrite init_flat. discriminate.
  - rewrite run_S.
    pose proof (tick_event_effect s c draws (Z.of_nat (S n)) (run c junk draws n)) as H.
    pose proof (tick_event_idle_open s c draws (Z.of_nat (S n)) (run c junk draws n)) as HI.
    cbv zeta in H. rewrite tick_prices.
    pose proof (run_prices_length c junk draws n) as L.
    destruct (tick_event s c draws (Z.of_nat (S n)) (run c junk draws n)).
    + destruct H as (_ & -> & _). intros _.
      destruct (opened_trade_fields s c (Z.of_nat (S n))
                  (tick_price c draws (Z.of_nat (S n)) (run c junk draws n))
                  (activeTrades (run c junk draws n) (slot s)))
        as (F1 & F2 & F3 & F4 & F5).
      split; [|rewrite F3; lia].
      unfold open_trade_ok. rewrite F3, F4.
      repeat split; try assumption; try lia.
      symmetry.
      transitivity
        (at_index
           (prices (run c junk draws n)
            ++ [tick_price c draws (Z.of_nat (S n)) (run c junk draws n)])
           (Z.of_nat (length (prices (run c junk draws n)))));
        [now rewrite L | apply at_index_last].
    + destruct H as (_ & -> & _). discriminate.
    + destruct H as (-> & _). intros Ho.
      destruct (IH Ho) as [(I1 & I2 & I3 & I4 & I5) _].
      split; [|intros _; apply HI; [reflexivity | assumption]].
      unfold open_trade_ok. repeat split; try assumption; try lia.
      rewrite at_index_app by lia. assumption.
Qed.

(** X16. While a strategy's slot is open in a run, its record holds the
    strategy's number, volume 10, an entry tick between 1 and the current
    tick, the price of that tick as entry price, and the strikes the strategy
    derives from that price; and, for a holding period of at least one tick,
    fewer than [holdPeriod] ticks have passed since the entry. *)
Theorem open_trade_invariant (s : Strategy) (c : Config) (junk : nat -> Trade)
    (draws : Z -> R) (n : nat)
    (Hopen : open (activeTrades (run c junk draws n) (slot s)) = true) :
  open_trade_ok s c n (prices (run c junk draws n))
    (activeTrades (run c junk draws n) (slot s)) /\
  ((1 <= holdPeriod c)%Z ->
   (Z.of_nat n - entryTick (activeTrades (run c junk draws n) (slot s))
    < holdPeriod c)%Z).
Proof. now apply run_open_ok. Qed.

Lemma calm_butterfly_open_1 junk draws :
  open (activeTrades (run calm_config junk draws 1) (slot ButterflySpread)) = true.
Proof.
  pose proof (calm_butterfly junk draws 1 0 1 eq_refl ltac:(lia)) as H0.
  revert H0. generalize (run calm_config junk draws 1). intros st (_ & _ & H).
  destruct (H ltac:(discriminate)) as (Ho & _). exact Ho.
Qed.

Lemma open_trade_invariant_witness :
  open (activeTrades (run calm_config junk0 (fun _ => 0) 1) (slot ButterflySpread))
  = true /\
  open_trade_ok ButterflySpread calm_config 1
    (prices (run calm_config junk0 (fun _ => 0) 1))
    (activeTrades (run calm_config junk0 (fun _ => 0) 1) (slot ButterflySpread)).
Proof.
  pose proof (calm_butterfly_open_1 junk0 (fun _ => 0)) as H.
  split; [exact H|].
  exact (proj1 (open_trade_invariant ButterflySpread calm_config junk0
                  (fun _ => 0) 1 H)).
Defined.

Lemma run_exit_price c junk draws n :
  at_index (prices (run c junk draws (S n))) (Z.of_nat (S n))
  = tick_price c draws (Z.of_nat (S n)) (run c junk draws n).
Proof.
  rewrite run_S, tick_prices.
  pose proof (run_prices_length c junk draws n) as L.
  transitivity
    (at_index
       (prices (run c junk draws n)
        ++ [tick_price c draws (Z.of_nat (S n)) (run c junk draws n)])
       (Z.of_nat (length (prices (run c junk draws n)))));
    [now rewrite L | apply at_index_last].
Qed.

Lemma closed_trade_fields s t S tr :
  let tr' := closed_trade s t S tr in
  open tr' = false /\ exitTick tr' = t /\ exitPrice tr' = S /\
  payoff tr' = payoff_of s S tr * IZR (volume tr) /\
  entryTick tr' = entryTick tr /\ entryPrice tr' = entryPrice tr /\
  strike1 tr' = strike1 tr /\ strike2 tr' = strike2 tr /\
  strike3 tr' = strike3 tr /\ volume tr' = volume tr /\
  strategyType tr' = strategyType tr.
Proof. repeat split. Qed.

(** X17. When a tick closes a strategy's trade (holding period of at least
    one tick), between 1 and [holdPeriod] ticks have passed since the entry;
    the record is marked closed and keeps the exit tick, the price of that
    tick as exit price and payoff times volume 10 as payoff; that payoff is
    what is added to the strategy's cumulative PnL; and the entry tick, entry
    price, strikes, volume and strategy number of the record are untouched. *)
Theorem closure_record (s : Strategy) (c : Config) (junk : nat -> Trade)
    (draws : Z -> R) (n : nat)
    (Hhold : (1 <= holdPeriod c)%Z)
    (Hclosed : tick_event s c draws (Z.of_nat (S n)) (run c junk draws n) = Closed) :
  let tr := activeTrades (run c junk draws n) (slot s) in
  let tr' := activeTrades (run c junk draws (S n)) (slot s) in
  let S_exit := at_index (prices (run c junk draws (S n))) (Z.of_nat (S n)) in
  (1 <= Z.of_nat (S n) - entryTick tr <= holdPeriod c)%Z /\
  open tr' = false /\
  exitTick tr' = Z.of_nat (S n) /\
  exitPrice tr' = S_exit /\
  payoff tr' = payoff_of s S_exit tr * 10 /\
  cumulativePnL (run c junk draws (S n)) (slot s)
    = cumulativePnL (run c junk draws n) (slot s) + payoff tr' /\
  entryTick tr' = entryTick tr /\ entryPrice tr' = entryPrice tr /\
  strike1 tr' = strike1 tr /\ strike2 tr' = strike2 tr /\
  strike3 tr' = strike3 tr /\ volume tr' = volume tr /\
  strategyType tr' = strategyType tr.
Proof.
  cbv zeta. rewrite run_exit_price.
  destruct (tick_event_closed_cond s c draws _ _ Hclosed) as [Ho _].
  destruct (run_open_ok s c junk draws n Ho) as [(_ & Hv & Ht & _) Hh].
  specialize (Hh Hhold).
  pose proof (tick_event_effect s c draws (Z.of_nat (S n)) (run c junk draws n)) as H.
  cbv zeta in H. rewrite Hclosed in H. destruct H as (_ & HT & HP).
  rewrite run_S, HT, HP.
  destruct (closed_trade_fields s (Z.of_nat (S n))
              (tick_price c draws (Z.of_nat (S n)) (run c junk draws n))
              (activeTrades (run c junk draws n) (slot s)))
    as (F1 & F2 & F3 & F4 & F5 & F6 & F7 & F8 & F9 & F10 & F11).
  cbv zeta in F1, F2, F3, F4, F5, F6, F7, F8, F9, F10, F11.
  rewrite F4, Hv.
  repeat split; try assumption; lia.
Qed.

Lemma calm_butterfly_closes_11 junk draws :
  tick_event ButterflySpread calm_config draws (Z.of_nat 11)
    (run calm_config junk draws 10) = Closed.
Proof.
  pose proof (calm_butterfly junk draws 10 0 10 eq_refl ltac:(lia)) as Inv.
  pose proof (calm_butterfly_step junk draws 10 0 10 eq_refl ltac:(lia)) as St.
  revert Inv St. generalize (run calm_config junk draws 11).
  generalize (run calm_config junk draws 10). intros st st' Inv St.
  exact (proj1 (St Inv)).
Qed.

Lemma closure_record_witness :
  ((1 <= holdPeriod calm_config)%Z /\
   tick_event ButterflySpread calm_config (fun _ => 0) (Z.of_nat 11)
     (run calm_config junk0 (fun _ => 0) 10) = Closed) /\
  exitTick (activeTrades (run calm_config junk0 (fun _ => 0) 11)
              (slot ButterflySpread)) = Z.of_nat 11.
Proof.
  assert (H : (1 <= holdPeriod calm_config)%Z /\
              tick_event ButterflySpread calm_config (fun _ => 0) (Z.of_nat 11)
                (run calm_config junk0 (fun _ => 0) 10) = Closed).
  { split; [cbn; lia | apply calm_butterfly_closes_11]. }
  split; [exact H|]. destruct H as [H1 H2].
  exact (proj1 (proj2 (proj2
           (closure_record ButterflySpread calm_config junk0 (fun _ => 0) 10 H1 H2)))).
Defined.

(** X18. After any number of ticks a strategy's cumulative PnL is the sum of
    the payoff fields its closures left in its trade record. *)
Theorem pnl_is_sum_of_payoffs (s : Strategy) (c : Config) (junk : nat -> Trade)
    (draws : Z -> R) (n : nat) :
  cumulativePnL (run c junk draws n) (slot s) = realized s c junk draws n.
Proof.
  induction n as [|n IH]; [reflexivity|].
  cbn [realized]. rewrite <- IH. rewrite run_S.
  pose proof (tick_event_effect s c draws (Z.of_nat (S n)) (run c junk draws n)) as H.
  cbv zeta in H.
  destruct (tick_event s c draws (Z.of_nat (S n)) (run c junk draws n));
    cbn [Event_eqb].
  - destruct H as (_ & _ & ->). lra.
  - destruct H as (_ & -> & ->). reflexivity.
  - destruct H as (_ & ->). lra.
Qed.

(** X19. What a closure does to a strategy's cumulative PnL, in terms of the
    entry price [E] of the trade and the price [P] of the closing tick (strike
    offset and initial price not negative).  Straddle: it adds 10 times the
    distance of [P] and [E].  Strangle: the total does not decrease, and is
    unchanged when [P] is between the two strikes.  Bull spread: the total
    does not decrease.  Bear spread: the total does not increase when [P] is
    at or above the upper strike.  Butterfly: the total does not decrease when
    [P] is at or below [E]. *)
Theorem realized_gain (s : Strategy) (c : Config) (junk : nat -> Trade)
    (draws : Z -> R) (n : nat)
    (Hdelta : 0 <= delta c) (HS0 : 0 <= S0 c)
    (Hclosed : tick_event s c draws (Z.of_nat (S n)) (run c junk draws n) = Closed) :
  let E := entryPrice (activeTrades (run c junk draws n) (slot s)) in
  let P := at_index (prices (run c junk draws (S n))) (Z.of_nat (S n)) in
  let pnl := cumulativePnL (run c junk draws n) (slot s) in
  let pnl' := cumulativePnL (run c junk draws (S n)) (slot s) in
  match s with
  | Straddle => pnl' = pnl + Rabs (P - E) * 10
  | Strangle =>
      pnl <= pnl' /\ (E * (1 - delta c) <= P <= E * (1 + delta c) -> pnl' = pnl)
  | BullSpread => pnl <= pnl'
  | BearSpread => E * (1 + delta c) <= P -> pnl' <= pnl
  | ButterflySpread => P <= E -> pnl <= pnl'
  end.
Proof.
  cbv zeta. rewrite run_exit_price.
  destruct (tick_event_closed_cond s c draws _ _ Hclosed) as [Ho _].
  destruct (run_open_ok s c junk draws n Ho) as [(_ & Hv & Ht & He & Hk) _].
  pose proof (tick_event_effect s c draws (Z.of_nat (S n)) (run c junk draws n)) as H.
  cbv zeta in H. rewrite Hclosed in H. destruct H as (_ & _ & HP).
  rewrite run_S, HP, Hv.
  assert (HE : 0 <= entryPrice (activeTrades (run c junk draws n) (slot s))).
  { rewrite He. apply at_index_nonneg; [now apply run_prices_nonneg|].
    rewrite run_prices_length. lia. }
  revert Hk HE.
  generalize (tick_price c draws (Z.of_nat (S n)) (run c junk draws n)).
  generalize (cumulativePnL (run c junk draws n) (slot s)).
  generalize (activeTrades (run c junk draws n) (slot s)).
  intros tr pnl S Hk HE.
  assert (HdE : 0 <= delta c * entryPrice tr) by (apply Rmult_le_pos; lra).
  destruct s; cbn [strikes_from_entry payoff_of] in *.
  - rewrite Hk. unfold straddlePayoff, Rmax, Rabs.
    destruct (Rle_dec (S - entryPrice tr) 0), (Rle_dec (entryPrice tr - S) 0),
             (Rcase_abs (S - entryPrice tr)); lra.
  - destruct Hk as [-> ->]. unfold stranglePayoff, Rmax.
    destruct (Rle_dec (entryPrice tr * (1 - delta c) - S) 0),
             (Rle_dec (S - entryPrice tr * (1 + delta c)) 0);
      repeat split; intros; lra.
  - destruct Hk as [-> ->]. unfold bullSpreadPayoff, Rmax.
    destruct (Rle_dec (S - entryPrice tr * (1 - delta c)) 0),
             (Rle_dec (S - entryPrice tr * (1 + delta c)) 0); lra.
  - destruct Hk as [-> ->]. unfold bearSpreadPayoff, Rmax. intros HP'.
    destruct (Rle_dec (entryPrice tr * (1 + delta c) - S) 0),
             (Rle_dec (S - entryPrice tr * (1 - delta c)) 0); lra.
  - destruct Hk as (-> & -> & ->). unfold butterflySpreadPayoff, Rmax. intros HP'.
    destruct (Rle_dec (S - entryPrice tr * (1 - delta c)) 0),
             (Rle_dec (S - entryPrice tr) 0),
             (Rle_dec (S - entryPrice tr * (1 + delta c)) 0); lra.
Qed.

Lemma realized_gain_witness :
  (0 <= delta calm_config /\ 0 <= S0 calm_config /\
   tick_event ButterflySpread calm_config (fun _ => 0) (Z.of_nat 11)
     (run calm_config junk0 (fun _ => 0) 10) = Closed) /\
  (at_index (prices (run calm_config junk0 (fun _ => 0) 11)) (Z.of_nat 11)
   <= entryPrice (activeTrades (run calm_config junk0 (fun _ => 0) 10)
                    (slot ButterflySpread)) ->
   cumulativePnL (run calm_config junk0 (fun _ => 0) 10) (slot ButterflySpread)
   <= cumulativePnL (run calm_config junk0 (fun _ => 0) 11) (slot ButterflySpread)).
Proof.
  assert (H : 0 <= delta calm_config /\ 0 <= S0 calm_config /\
              tick_event ButterflySpread calm_config (fun _ => 0) (Z.of_nat 11)
                (run calm_config junk0 (fun _ => 0) 10) = Closed).
  { split; [cbn; lra|]. split; [cbn; lra | apply calm_butterfly_closes_11]. }
  split; [exact H|]. destruct H as (H1 & H2 & H3).
  exact (realized_gain ButterflySpread calm_config junk0 (fun _ => 0) 10 H1 H2 H3).
Defined.

(** X20. The five strategies do not interfere: what a tick leaves in the slot
    and the total of one strategy depends only on the price history, the draw
    and that strategy's own slot and total before the tick. *)
Theorem strategies_independent (s : Strategy) (c : Config) (draws : Z -> R)
    (t : Z) (st st' : SimState)
    (Hprices : prices st = prices st')
    (Htrade : activeTrades st (slot s) = activeTrades st' (slot s))
    (Hpnl : cumulativePnL st (slot s) = cumulativePnL st' (slot s)) :
  activeTrades (tick c draws t st) (slot s)
    = activeTrades (tick c draws t st') (slot s) /\
  cumulativePnL (tick c draws t st) (slot s)
    = cumulativePnL (tick c draws t st') (slot s).
Proof.
  destruct (tick_slot s c draws t st) as [A1 P1].
  destruct (tick_slot s c draws t st') as [A2 P2].
  cbv zeta in *. rewrite A1, P1, A2, P2.
  unfold tick_price, view. rewrite Hprices, Htrade, Hpnl. split; reflexivity.
Qed.

Lemma strategies_independent_witness :
  (prices (init main_config junk0)
     = prices (set_trade 1 (junk0 0%nat) (init main_config junk0)) /\
   activeTrades (init main_config junk0) (slot ButterflySpread)
     = activeTrades (set_trade 1 (junk0 0%nat) (init main_config junk0))
         (slot ButterflySpread) /\
   cumulativePnL (init main_config junk0) (slot ButterflySpread)
     = cumulativePnL (set_trade 1 (junk0 0%nat) (init main_config junk0))
         (slot ButterflySpread)) /\
  activeTrades (tick main_config (fun _ => 0) 1 (init main_config junk0))
    (slot ButterflySpread)
  = activeTrades
      (tick main_config (fun _ => 0) 1
         (set_trade 1 (junk0 0%nat) (init main_config junk0)))
      (slot ButterflySpread).
Proof.
  assert (H : prices (init main_config junk0)
                = prices (set_trade 1 (junk0 0%nat) (init main_config junk0)) /\
              activeTrades (init main_config junk0) (slot ButterflySpread)
                = activeTrades (set_trade 1 (junk0 0%nat) (init main_config junk0))
                    (slot ButterflySpread) /\
              cumulativePnL (init main_config junk0) (slot ButterflySpread)
                = cumulativePnL (set_trade 1 (junk0 0%nat) (init main_config junk0))
                    (slot ButterflySpread)).
  { generalize (init main_config junk0). intros st. repeat split. }
  split; [exact H|]. destruct H as (H1 & H2 & H3).
  exact (proj1 (strategies_independent ButterflySpread main_config (fun _ => 0) 1
                  _ _ H1 H2 H3)).
Defined.

Lemma tick_other_cell c draws t st k :
  (k = 0 \/ 5 < k)%nat ->
  activeTrades (tick c draws t st) k = activeTrades st k /\
  cumulativePnL (tick c draws t st) k = cumulativePnL st k.
Proof.
  intros Hk. rewrite tick_unfold. cbv zeta.
  assert (FA : forall s' al st0,
            activeTrades (exec s' c t (tick_price c draws t st) al st0) k
            = activeTrades st0 k).
  { intros s' al st0. apply exec_frame. destruct s'; cbn; lia. }
  assert (FP : forall s' al st0,
            cumulativePnL (exec s' c t (tick_price c draws t st) al st0) k
            = cumulativePnL st0 k).
  { intros s' al st0. apply exec_frame. destruct s'; cbn; lia. }
  rewrite !FA, !FP. split; reflexivity.
Qed.

(** X21. Cell 0 of the two arrays, which belongs to no strategy, is never
    written: a tick leaves it as it is, so throughout a run
    [cumulativePnL[0]] stays 0 and [activeTrades[0]] keeps its initial,
    indeterminate contents. *)
Theorem unused_cells_untouched (c : Config) (junk : nat -> Trade)
    (draws : Z -> R) :
  (forall t st,
     activeTrades (tick c draws t st) 0 = activeTrades st 0 /\
     cumulativePnL (tick c draws t st) 0 = cumulativePnL st 0) /\
  (forall n, cumulativePnL (run c junk draws n) 0 = 0 /\
             activeTrades (run c junk draws n) 0 = junk 0%nat).
Proof.
  split.
  - intros t st. apply tick_other_cell. now left.
  - induction n as [|n [IH1 IH2]]; [split; reflexivity|].
    rewrite run_S.
    destruct (tick_other_cell c draws (Z.of_nat (S n)) (run c junk draws n) 0
                ltac:(lia)) as [-> ->].
    split; assumption.
Qed.

(** ** The warm-up of the indicators *)

Lemma flat_stays_flat s c junk draws n :
  open (activeTrades (run c junk draws n) (slot s)) = false ->
  signal_of s c
    (prices (run c junk draws n)
     ++ [tick_price c draws (Z.of_nat (S n)) (run c junk draws n)])
    (Z.of_nat (S n)) <> 1%Z ->
  activeTrades (run c junk draws (S n)) (slot s)
    = activeTrades (run c junk draws n) (slot s) /\
  cumulativePnL (run c junk draws (S n)) (slot s)
    = cumulativePnL (run c junk draws n) (slot s).
Proof.
  intros Ho Hs. rewrite run_S.
  pose proof (tick_event_effect s c draws (Z.of_nat (S n)) (run c junk draws n)) as H.
  cbv zeta in H. unfold tick_event in H.
  rewrite (event_of_flat_other c _ _ _ Ho Hs) in H. exact H.
Qed.

Lemma computeVolatility_guard (prices : list R) (t w : Z) :
  (t < w)%Z -> computeVolatility prices t w = 0.
Proof.
  intros H. unfold computeVolatility.
  destruct (Z.ltb_spec t w); [reflexivity | lia].
Qed.

Lemma volatility_warmup_flat s c junk draws :
  0 <= volThresholdHigh c -> 0 <= volThresholdHighStrangle c ->
  s = Straddle \/ s = Strangle ->
  forall n, (Z.of_nat n < volWindow c)%Z ->
    open (activeTrades (run c junk draws n) (slot s)) = false /\
    cumulativePnL (run c junk draws n) (slot s) = 0.
Proof.
  intros Hh Hg Hs. induction n as [|n IH]; intros Hn.
  - split; [apply init_flat | apply init_pnl].
  - destruct IH as [Ho Hp]; [lia|].
    destruct (flat_stays_flat s c junk draws n Ho) as [-> ->]; [|now split].
    destruct Hs as [-> | ->]; cbn [signal_of];
      rewrite computeVolatility_guard by lia.
    + destruct (signalStraddle_cases c 0) as [[? E]|[(_ & _ & E)|(_ & _ & E)]];
        [lra | rewrite E; discriminate | rewrite E; discriminate].
    + destruct (signalStrangle_cases c 0) as [[? E]|[(_ & _ & E)|(_ & _ & E)]];
        [lra | rewrite E; discriminate | rewrite E; discriminate].
Qed.

(** X22. While the tick is smaller than the volatility window the volatility
    is 0.  Hence, for thresholds with [0 < volThresholdLow] and high
    thresholds that are not negative, the straddle and the strangle stay flat
    with a total of 0 as long as the number of ticks run is below the window,
    and, if the window is longer than one tick, the butterfly opens its first
    trade at tick 1 whatever the draws. *)
Theorem volatility_warmup (c : Config) (junk : nat -> Trade) (draws : Z -> R)
    (Hlow : 0 < volThresholdLow c)
    (Hhigh : 0 <= volThresholdHigh c)
    (HhighS : 0 <= volThresholdHighStrangle c) :
  (forall n, (Z.of_nat n < volWindow c)%Z ->
     open (activeTrades (run c junk draws n) (slot Straddle)) = false /\
     cumulativePnL (run c junk draws n) (slot Straddle) = 0 /\
     open (activeTrades (run c junk draws n) (slot Strangle)) = false /\
     cumulativePnL (run c junk draws n) (slot Strangle) = 0) /\
  ((1 < volWindow c)%Z ->
     open (activeTrades (run c junk draws 1) (slot ButterflySpread)) = true /\
     entryTick (activeTrades (run c junk draws 1) (slot ButterflySpread)) = 1%Z).
Proof.
  split.
  - intros n Hn.
    destruct (volatility_warmup_flat Straddle c junk draws Hhigh HhighS
                (or_introl eq_refl) n Hn) as [H1 H2].
    destruct (volatility_warmup_flat Strangle c junk draws Hhigh HhighS
                (or_intror eq_refl) n Hn) as [H3 H4].
    auto.
  - intros Hw. rewrite (run_S c junk draws 0).
    pose proof (tick_event_effect ButterflySpread c draws (Z.of_nat 1)
                  (run c junk draws 0)) as H.
    cbv zeta in H. unfold tick_event in H. cbn [signal_of] in H.
    rewrite computeVolatility_guard in H by (cbn; lia).
    destruct (signalButterfly_cases c 0) as [[_ E]|[? _]]; [|lra].
    rewrite E in H.
    rewrite (event_of_flat_enter c _ _ (init_flat c junk ButterflySpread)) in H.
    destruct H as (_ & -> & _).
    split; [apply opened_trade_open | reflexivity].
Qed.

Lemma volatility_warmup_witness :
  (0 < volThresholdLow main_config /\ 0 <= volThresholdHigh main_config /\
   0 <= volThresholdHighStrangle main_config) /\
  open (activeTrades (run main_config junk0 (fun _ => 0) 1) (slot ButterflySpread))
  = true.
Proof.
  assert (H : 0 < volThresholdLow main_config /\ 0 <= volThresholdHigh main_config /\
              0 <= volThresholdHighStrangle main_config) by (cbn; lra).
  split; [exact H|]. destruct H as (H1 & H2 & H3).
  exact (proj1 (proj2 (volatility_warmup main_config junk0 (fun _ => 0) H1 H2 H3)
                  ltac:(cbn; lia))).
Defined.

Lemma ma_warmup_flat s c junk draws :
  s = BullSpread \/ s = BearSpread ->
  forall n, (Z.of_nat n < shortWindow c - 1)%Z -> (Z.of_nat n < longWindow c - 1)%Z ->
    open (activeTrades (run c junk draws n) (slot s)) = false /\
    cumulativePnL (run c junk draws n) (slot s) = 0.
Proof.
  intros Hs. induction n as [|n IH]; intros H1 H2.
  - split; [apply init_flat | apply init_pnl].
  - destruct IH as [Ho Hp]; [lia | lia |].
    destruct (flat_stays_flat s c junk draws n Ho) as [-> ->]; [|now split].
    destruct Hs as [-> | ->]; cbn [signal_of];
      rewrite !computeMA_warmup by lia.
    + match goal with
      | |- signalBull ?x ?y <> _ =>
          destruct (signalBull_cases x y) as [[? E]|[_ E]];
            [lra | rewrite E; discriminate]
      end.
    + match goal with
      | |- signalBear ?x ?y <> _ =>
          destruct (signalBear_cases x y) as [[? E]|[_ E]];
            [lra | rewrite E; discriminate]
      end.
Qed.

(** X23. While the tick is smaller than both moving-average windows minus
    one, both averages are the current price; so the bull spread and the bear
    spread stay flat with a total of 0 as long as the number of ticks run is
    below both windows minus one. *)
Theorem ma_warmup (c : Config) (junk : nat -> Trade) (draws : Z -> R) (n : nat)
    (Hshort : (Z.of_nat n < shortWindow c - 1)%Z)
    (Hlong : (Z.of_nat n < longWindow c - 1)%Z) :
  (forall prices t, (t < shortWindow c - 1)%Z -> (t < longWindow c - 1)%Z ->
     computeMA prices t (shortWindow c) = computeMA prices t (longWindow c)) /\
  open (activeTrades (run c junk draws n) (slot BullSpread)) = false /\
  cumulativePnL (run c junk draws n) (slot BullSpread) = 0 /\
  open (activeTrades (run c junk draws n) (slot BearSpread)) = false /\
  cumulativePnL (run c junk draws n) (slot BearSpread) = 0.
Proof.
  split.
  - intros prices t H1 H2. now rewrite !computeMA_warmup.
  - destruct (ma_warmup_flat BullSpread c junk draws (or_introl eq_refl) n
                Hshort Hlong) as [H1 H2].
    destruct (ma_warmup_flat BearSpread c junk draws (or_intror eq_refl) n
                Hshort Hlong) as [H3 H4].
    auto.
Qed.

Lemma ma_warmup_witness :
  ((Z.of_nat 3 < shortWindow main_config - 1)%Z /\
   (Z.of_nat 3 < longWindow main_config - 1)%Z) /\
  open (activeTrades (run main_config junk0 (fun _ => 0) 3) (slot BearSpread))
  = false.
Proof.
  assert (H : (Z.of_nat 3 < shortWindow main_config - 1)%Z /\
              (Z.of_nat 3 < longWindow main_config - 1)%Z) by (cbn; lia).
  split; [exact H|]. destruct H as [H1 H2].
  exact (proj1 (proj2 (proj2 (proj2
           (ma_warmup main_config junk0 (fun _ => 0) 3 H1 H2))))).
Defined.

(** * The run as a whole *)

(** X25. [main] reserves room for [totalTicks] prices and runs its loop for
    the ticks 1 to [totalTicks - 1].  For a negative tick count the
    reservation fails and there is no result.  For a tick count of 0 or 1 the
    loop body never runs: the history is the initial price alone and the
    reported total is 0.  For a tick count of at least 1 the final price
    history has exactly [totalTicks] entries. *)
Theorem simulate_extent (c : Config) (junk : nat -> Trade) (draws : Z -> R) :
  ((totalTicks c < 0)%Z -> simulate_checked c junk draws = None) /\
  ((0 <= totalTicks c <= 1)%Z ->
     simulate_checked c junk draws = Some (init c junk) /\
     prices (init c junk) = [S0 c] /\
     totalPnL (init c junk) = 0) /\
  ((1 <= totalTicks c)%Z ->
     exists st, simulate_checked c junk draws = Some st /\
                st = run c junk draws (Z.to_nat (totalTicks c - 1)) /\
                Z.of_nat (length (prices st)) = totalTicks c).
Proof.
  unfold simulate_checked. split; [|split].
  - intros H. destruct (Z.ltb_spec (totalTicks c) 0); [reflexivity | lia].
  - intros H. destruct (Z.ltb_spec (totalTicks c) 0); [lia|].
    rewrite simulate_run.
    replace (Z.to_nat (totalTicks c - 1)) with 0%nat by lia.
    change (run c junk draws 0) with (init c junk).
    split; [reflexivity|]. split; [reflexivity|].
    rewrite totalPnL_eq, !init_pnl. lra.
  - intros H. destruct (Z.ltb_spec (totalTicks c) 0); [lia|].
    exists (simulate c junk draws). split; [reflexivity|].
    rewrite simulate_run. split; [reflexivity|].
    rewrite run_prices_length. lia.
Qed.


